(** * libtorrent [buffer]: a move-only heap buffer and its interval views

    A shallow embedding of [include/libtorrent/buffer.hpp].

    - [std::size_t] values are integers in [0, 2^size_bits), with the
      wrap-around of unsigned arithmetic written out ([to_size_t]).
    - A pointer is a pair of an allocation (the base address [malloc]
      returned, [0] for the null pointer) and a byte offset into it, as in
      the C++ abstract machine: arithmetic moves the offset, comparison and
      difference are defined inside one allocation only. Where a view adds
      a caller's [int] index to its begin pointer ([ptr_offset]), the sum
      is defined from the start of the live allocation to one past its
      end, and adding anything but 0 to the null pointer is undefined.
    - The heap maps each live allocation to its usable size and to the bytes
      written so far; a byte never written is indeterminate.
    - Buffer objects live in a store keyed by object identity (the address
      of the object), so that [&b == this] is a comparison of keys and a
      moved-from object can be observed afterwards.
    - [TORRENT_ASSERT] is modelled as in a debug build: a failed assertion
      stops the operation with [Assert_failed].
    - The answer of the system allocator to one [malloc] call is an input
      of the operation ([malloc_outcome]); [malloc_consistent] says what a
      conforming allocator may answer. *)

From Stdlib Require Import ZArith Lia List.
From Stdlib.Init Require Import Byte.
From stdpp Require Import base option gmap list.

Open Scope Z_scope.

(** ** Build configuration *)

(** Width of [std::size_t]. *)
Inductive size_width := W32 | W64.

(** The [#if defined __GLIBC__ / _MSC_VER / TORRENT_BSD / #else] chain of
    the sizing constructor. *)
Inductive usable_size_api :=
| glibc_malloc_usable_size
| msvc_msize
| bsd_malloc_size
| no_introspection.

Class Platform := {
  size_width_of : size_width;
  usable_api : usable_size_api;
  (* BOOST_NO_EXCEPTIONS *)
  no_exceptions : bool
}.

Definition bits_of (w : size_width) : Z :=
  match w with W32 => 32 | W64 => 64 end.

Definition size_bits `{Platform} : Z := bits_of size_width_of.

Definition size_modulus `{Platform} : Z := 2 ^ size_bits.

(** Conversion to [std::size_t]: reduction modulo [2^size_bits]. *)
Definition to_size_t `{Platform} (v : Z) : Z := v mod size_modulus.

Definition is_size_t `{Platform} (v : Z) : Prop := 0 <= v < size_modulus.

(** [(std::numeric_limits<std::int32_t>::max)()] and
    [(std::numeric_limits<int>::max)()]; [int] is 32 bits wide on every
    platform the library supports. *)
Definition INT32_MAX : Z := 2147483647.
Definition INT_MAX : Z := 2147483647.

(** The conversion [int(x)]: two's complement reduction to 32 bits. *)
Definition to_int (x : Z) : Z := (x + 2 ^ 31) mod 2 ^ 32 - 2 ^ 31.

(** ** Outcomes *)

Inductive result (A : Type) : Type :=
| Ok (a : A)
| Assert_failed        (* a TORRENT_ASSERT does not hold *)
| Throw_bad_alloc      (* throw std::bad_alloc() *)
| Terminate            (* std::terminate() *)
| Undefined.           (* behaviour the language leaves undefined *)

Arguments Ok {A} a.
Arguments Assert_failed {A}.
Arguments Throw_bad_alloc {A}.
Arguments Terminate {A}.
Arguments Undefined {A}.

Definition bind {A B : Type} (r : result A) (k : A -> result B) : result B :=
  match r with
  | Ok a => k a
  | Assert_failed => Assert_failed
  | Throw_bad_alloc => Throw_bad_alloc
  | Terminate => Terminate
  | Undefined => Undefined
  end.

#[global] Instance result_bind : MBind result := fun A B k r => bind r k.
#[global] Instance result_ret : MRet result := fun A a => Ok a.

Definition torrent_assert (c : bool) : result unit :=
  if c then Ok tt else Assert_failed.

(** ** Pointers *)

Record pointer := { p_base : Z; p_off : Z }.

#[global] Instance pointer_eq_dec : EqDecision pointer.
Proof. solve_decision. Defined.

Definition nullptr : pointer := {| p_base := 0; p_off := 0 |}.

Definition pointer_eqb (a b : pointer) : bool :=
  (p_base a =? p_base b) && (p_off a =? p_off b).

Definition is_null (a : pointer) : bool := pointer_eqb a nullptr.

(** [p + n] *)
Definition ptr_add (a : pointer) (n : Z) : pointer :=
  {| p_base := p_base a; p_off := p_off a + n |}.

(** [a < b], [a >= b] and [a - b]: defined inside one allocation. *)
Definition ptr_lt (a b : pointer) : result bool :=
  if p_base a =? p_base b then Ok (p_off a <? p_off b) else Undefined.

Definition ptr_ge (a b : pointer) : result bool :=
  if p_base a =? p_base b then Ok (p_off a >=? p_off b) else Undefined.

Definition ptr_diff (a b : pointer) : result Z :=
  if p_base a =? p_base b then Ok (p_off a - p_off b) else Undefined.

(** ** The heap *)

Record block := {
  blk_usable : Z;             (* what the allocator really reserved *)
  blk_bytes : gmap Z byte     (* offset -> byte written there *)
}.

Record buffer := {
  m_begin : pointer;
  (* m_begin points to an allocation of this size. *)
  m_size : Z
}.

Record state := {
  heap : gmap Z block;
  objs : gmap positive buffer;
  n_malloc : nat;             (* successful calls of malloc *)
  n_free : nat                (* allocations released by free *)
}.

Definition initial_state : state :=
  {| heap := ∅; objs := ∅; n_malloc := 0; n_free := 0 |}.

Definition set_obj (this : positive) (b : buffer) (s : state) : state :=
  {| heap := heap s; objs := <[this := b]> (objs s);
     n_malloc := n_malloc s; n_free := n_free s |}.

Definition del_obj (this : positive) (s : state) : state :=
  {| heap := heap s; objs := delete this (objs s);
     n_malloc := n_malloc s; n_free := n_free s |}.

(** The allocator's answer to one [malloc] call: the null pointer, or a new
    allocation with the size it really reserved. *)
Inductive malloc_outcome :=
| malloc_fails
| malloc_returns (base : Z) (usable : Z).

(** What a conforming allocator may answer to [malloc(n)] on heap [h]: a
    non-null address that is not live, with at least [n] usable bytes. *)
Definition malloc_consistent `{Platform}
    (h : gmap Z block) (n : Z) (r : malloc_outcome) : Prop :=
  match r with
  | malloc_fails => True
  | malloc_returns p u => 0 < p /\ h !! p = None /\ n <= u < size_modulus
  end.

(** [std::malloc(n)]; the memory is not initialised. *)
Definition malloc (n : Z) (r : malloc_outcome) (s : state) : pointer * state :=
  match r with
  | malloc_fails => (nullptr, s)
  | malloc_returns p u =>
      ({| p_base := p; p_off := 0 |},
       {| heap := <[p := {| blk_usable := u; blk_bytes := ∅ |}]> (heap s);
          objs := objs s;
          n_malloc := S (n_malloc s); n_free := n_free s |})
  end.

(** [std::free(p)]: nothing for the null pointer; releasing anything but the
    start of a live allocation is undefined. *)
Definition free (p : pointer) (s : state) : result state :=
  if is_null p then Ok s
  else if negb (p_off p =? 0) then Undefined
  else match heap s !! p_base p with
       | Some _ =>
           Ok {| heap := delete (p_base p) (heap s); objs := objs s;
                 n_malloc := n_malloc s; n_free := S (n_free s) |}
       | None => Undefined
       end.

(** [malloc_usable_size(p)], [_msize(p)], [malloc_size(p)]. *)
Definition malloc_usable_size (p : pointer) (s : state) : result Z :=
  match heap s !! p_base p with
  | Some blk => if p_off p =? 0 then Ok (blk_usable blk) else Undefined
  | None => Undefined
  end.

(** [p[i]] read. The result is [None] for a byte never written. *)
Definition load (p : pointer) (s : state) : result (option byte) :=
  match heap s !! p_base p with
  | Some blk =>
      if (0 <=? p_off p) && (p_off p <? blk_usable blk)
      then Ok (blk_bytes blk !! p_off p)
      else Undefined
  | None => Undefined
  end.

(** The bytes [src[0..n)] stored from offset [off] on. *)
Fixpoint store_bytes (off : Z) (src : list byte) (n : nat)
    (m : gmap Z byte) : gmap Z byte :=
  match n, src with
  | S n', c :: src' => store_bytes (off + 1) src' n' (<[off := c]> m)
  | _, _ => m
  end.

(** [memcpy(dst, src, n)]: source and destination must hold [n] bytes. *)
Definition memcpy (dst : pointer) (src : list byte) (n : Z) (s : state)
  : result state :=
  match heap s !! p_base dst with
  | Some blk =>
      if (0 <=? p_off dst) && (0 <=? n) && (p_off dst + n <=? blk_usable blk)
         && (n <=? Z.of_nat (length src))
      then Ok {| heap := <[p_base dst :=
                    {| blk_usable := blk_usable blk;
                       blk_bytes := store_bytes (p_off dst) src (Z.to_nat n)
                                      (blk_bytes blk) |}]> (heap s);
                 objs := objs s;
                 n_malloc := n_malloc s; n_free := n_free s |}
      else Undefined
  | None => Undefined
  end.

(** ** [round_up8] *)

Definition round_up8 `{Platform} (v : Z) : Z :=
  Z.land (to_size_t (v + 7)) (to_size_t (Z.lnot 7)).

(** ** [class buffer] *)

Definition empty_buffer : buffer := {| m_begin := nullptr; m_size := 0 |}.

(** Member access through an object reference. *)
Definition get_obj (this : positive) (s : state) : result buffer :=
  match objs s !! this with
  | Some b => Ok b
  | None => Undefined
  end.

Definition set_m_begin (this : positive) (p : pointer) (s : state) : state :=
  {| heap := heap s;
     objs := alter (fun b => {| m_begin := p; m_size := m_size b |}) this (objs s);
     n_malloc := n_malloc s; n_free := n_free s |}.

Definition set_m_size (this : positive) (n : Z) (s : state) : state :=
  {| heap := heap s;
     objs := alter (fun b => {| m_begin := m_begin b; m_size := n |}) this (objs s);
     n_malloc := n_malloc s; n_free := n_free s |}.

(** [buffer(std::size_t size = 0)], constructing the object [this]; the
    members start from their default initialisers [nullptr] and [0]. *)
Definition buffer_ctor `{Platform}
    (this : positive) (size : Z) (r : malloc_outcome) (s : state)
  : result state :=
  let s := set_obj this empty_buffer s in
  torrent_assert (size <? to_size_t INT32_MAX);;
  if size =? 0 then Ok s
  else
    let size := round_up8 size in
    let '(p, s) := malloc size r s in
    let s := set_m_begin this p s in
    if is_null p then
      (if no_exceptions then Terminate else Throw_bad_alloc)
    else
      m ← match usable_api with
            | glibc_malloc_usable_size => malloc_usable_size p s
            | msvc_msize => malloc_usable_size p s
            | bsd_malloc_size => malloc_usable_size p s
            | no_introspection => Ok size
            end;
      Ok (set_m_size this m s).

(** [buffer(std::size_t const size, aux::array_view<char const> initialize)];
    the view is the list of its bytes, [initialize.size()] its length. *)
Definition buffer_ctor_init `{Platform}
    (this : positive) (size : Z) (initialize : list byte)
    (r : malloc_outcome) (s : state) : result state :=
  s ← buffer_ctor this size r s;
  let isize := Z.of_nat (length initialize) in
  torrent_assert (isize <=? size);;
  if isize >? 0 then
    me ← get_obj this s;
    memcpy (m_begin me) initialize (Z.min isize size) s
  else Ok s.

(** [buffer(buffer&& b)], constructing [this] from the object [b]. *)
Definition buffer_move_ctor (this b : positive) (s : state) : result state :=
  src ← get_obj b s;
  let s := set_obj this {| m_begin := m_begin src; m_size := m_size src |} s in
  let s := set_m_begin b nullptr s in
  Ok (set_m_size b 0 s).

(** [buffer& operator=(buffer&& b)] *)
Definition buffer_move_assign (this b : positive) (s : state) : result state :=
  if decide (b = this) then
    get_obj this s;; Ok s
  else
    me ← get_obj this s;
    s ← free (m_begin me) s;
    src ← get_obj b s;
    let s := set_m_begin this (m_begin src) s in
    let s := set_m_size this (m_size src) s in
    let s := set_m_begin b nullptr s in
    Ok (set_m_size b 0 s).

(** [~buffer()]; the object is gone afterwards. *)
Definition buffer_dtor (this : positive) (s : state) : result state :=
  me ← get_obj this s;
  s ← free (m_begin me) s;
  Ok (del_obj this s).

(** [void swap(buffer& b)]: [std::swap] on each member in turn. *)
Definition buffer_swap (this b : positive) (s : state) : result state :=
  me ← get_obj this s;
  other ← get_obj b s;
  let s := set_m_begin this (m_begin other) s in
  let s := set_m_begin b (m_begin me) s in
  let s := set_m_size this (m_size other) s in
  Ok (set_m_size b (m_size me) s).

(** ** Views *)

(** [struct interval] *)
Record interval := { iv_begin : pointer; iv_end : pointer }.

(** [interval()] *)
Definition interval_default : interval :=
  {| iv_begin := nullptr; iv_end := nullptr |}.

(** [p + n] as the language defines it: adding 0 is always allowed; any
    other sum is defined only while it stays inside the live allocation
    [p] points into, from its start to one past its last byte. Arithmetic
    on the null pointer or on a pointer into a released allocation is
    undefined. *)
Definition ptr_offset (a : pointer) (n : Z) (s : state) : result pointer :=
  if n =? 0 then Ok a
  else
    match heap s !! p_base a with
    | Some blk =>
        if (0 <=? p_off a + n) && (p_off a + n <=? blk_usable blk)
        then Ok (ptr_add a n)
        else Undefined
    | None => Undefined
    end.

(** [char interval::operator[](int index) const]; whatever the caller
    passes arrives converted to [int]. *)
Definition interval_index (iv : interval) (index : Z) (s : state)
  : result (option byte) :=
  let index := to_int index in
  q ← ptr_offset (iv_begin iv) index s;
  c ← ptr_lt q (iv_end iv);
  torrent_assert c;;
  load q s.

(** [int interval::left() const] *)
Definition interval_left (iv : interval) : result Z :=
  c ← ptr_ge (iv_end iv) (iv_begin iv);
  torrent_assert c;;
  d ← ptr_diff (iv_end iv) (iv_begin iv);
  torrent_assert (d <? INT_MAX);;
  Ok (to_int d).

(** [struct const_interval] *)
Record const_interval := { civ_begin : pointer; civ_end : pointer }.

(** [const_interval(interval const& i)] *)
Definition const_interval_of (i : interval) : const_interval :=
  {| civ_begin := iv_begin i; civ_end := iv_end i |}.

(** [char const_interval::operator[](int index) const] *)
Definition const_interval_index (iv : const_interval) (index : Z) (s : state)
  : result (option byte) :=
  let index := to_int index in
  q ← ptr_offset (civ_begin iv) index s;
  c ← ptr_lt q (civ_end iv);
  torrent_assert c;;
  load q s.

(** [bool const_interval::operator==(const const_interval&)] *)
Definition const_interval_eq (a b : const_interval) : bool :=
  pointer_eqb (civ_begin a) (civ_begin b) && pointer_eqb (civ_end a) (civ_end b).

(** [int const_interval::left() const] *)
Definition const_interval_left (iv : const_interval) : result Z :=
  c ← ptr_ge (civ_end iv) (civ_begin iv);
  torrent_assert c;;
  d ← ptr_diff (civ_end iv) (civ_begin iv);
  torrent_assert (d <? INT_MAX);;
  Ok (to_int d).

(** ** Accessors of [buffer] *)

(** [char* ptr()] *)
Definition buffer_ptr (b : buffer) : pointer := m_begin b.

(** [buffer::interval data()] *)
Definition buffer_data (b : buffer) : interval :=
  {| iv_begin := m_begin b; iv_end := ptr_add (m_begin b) (m_size b) |}.

(** [buffer::const_interval data() const] *)
Definition buffer_data_const (b : buffer) : const_interval :=
  const_interval_of
    {| iv_begin := m_begin b; iv_end := ptr_add (m_begin b) (m_size b) |}.

(** [std::size_t size() const] *)
Definition buffer_size (b : buffer) : Z := m_size b.

(** [bool empty() const] *)
Definition buffer_empty (b : buffer) : bool := m_size b =? 0.

(** [char& operator[](std::size_t i)], read through the reference. *)
Definition buffer_index (b : buffer) (i : Z) (s : state)
  : result (option byte) :=
  torrent_assert (i <? buffer_size b);;
  load (ptr_add (m_begin b) i) s.

(** [char* begin()], [char* end()] *)
Definition buffer_begin (b : buffer) : pointer := m_begin b.
Definition buffer_end (b : buffer) : pointer := ptr_add (m_begin b) (m_size b).

(** ** Programs over buffers

    One step of a client: each constructor call creates an object that does
    not exist yet and carries the allocator's answer; the other operations
    act on live objects. *)

Inductive op :=
| New (this : positive) (size : Z) (r : malloc_outcome)
| NewInit (this : positive) (size : Z) (initialize : list byte) (r : malloc_outcome)
| MoveNew (this b : positive)
| MoveAssign (this b : positive)
| Swap (this b : positive)
| Delete (this : positive).

Definition fresh_obj (this : positive) (s : state) : result unit :=
  match objs s !! this with
  | None => Ok tt
  | Some _ => Undefined
  end.

Definition exec_op `{Platform} (o : op) (s : state) : result state :=
  match o with
  | New this size r => fresh_obj this s;; buffer_ctor this size r s
  | NewInit this size initialize r =>
      fresh_obj this s;; buffer_ctor_init this size initialize r s
  | MoveNew this b => fresh_obj this s;; buffer_move_ctor this b s
  | MoveAssign this b => buffer_move_assign this b s
  | Swap this b => buffer_swap this b s
  | Delete this => buffer_dtor this s
  end.

Fixpoint run `{Platform} (p : list op) (s : state) : result state :=
  match p with
  | [] => Ok s
  | o :: p' => s' ← exec_op o s; run p' s'
  end.

(** The environment conforms at a step: a constructor is given a
    [std::size_t], and the allocator answers its request, which is for
    [round_up8 size] bytes, as a conforming allocator may. *)
Definition op_env_ok `{Platform} (o : op) (s : state) : Prop :=
  match o with
  | New _ size r =>
      is_size_t size /\ malloc_consistent (heap s) (round_up8 size) r
  | NewInit _ size _ r =>
      is_size_t size /\ malloc_consistent (heap s) (round_up8 size) r
  | _ => True
  end.

(** States a client can reach from the empty one. *)
Inductive reachable `{Platform} : state -> Prop :=
| reachable_init : reachable initial_state
| reachable_step s o s' :
    reachable s -> op_env_ok o s -> exec_op o s = Ok s' -> reachable s'.

(** The allocator conforms at every step of a run. *)
Fixpoint run_env_ok `{Platform} (p : list op) (s : state) : Prop :=
  match p with
  | [] => True
  | o :: p' =>
      op_env_ok o s /\
      match exec_op o s with
      | Ok s' => run_env_ok p' s'
      | _ => True
      end
  end.

(** Destroying every object in a list, and every live object. *)
Definition destroy_all (ids : list positive) : list op := map Delete ids.

Definition live_objects (s : state) : list positive := elements (dom (objs s)).

(** ** The representation invariant *)

(** What the class promises of one object: [m_size] is zero exactly when
    [m_begin] is null, and a non-null [m_begin] is the start of a live
    allocation of at least [m_size] bytes. *)
Definition buffer_ok (h : gmap Z block) (b : buffer) : Prop :=
  (m_size b = 0 <-> m_begin b = nullptr) /\
  0 <= m_size b /\
  (m_begin b <> nullptr ->
     p_off (m_begin b) = 0 /\
     exists blk, h !! p_base (m_begin b) = Some blk /\ m_size b <= blk_usable blk).

Record state_ok (s : state) : Prop := {
  (* every object satisfies the class invariant *)
  ok_buffers : forall this b, objs s !! this = Some b -> buffer_ok (heap s) b;
  (* no allocation has two owners *)
  ok_unique : forall i j bi bj,
      objs s !! i = Some bi -> objs s !! j = Some bj ->
      m_begin bi <> nullptr -> m_begin bi = m_begin bj -> i = j;
  (* every live allocation has an owner, and none is at address 0 *)
  ok_owned : forall p blk, heap s !! p = Some blk ->
      p <> 0 /\ exists this b, objs s !! this = Some b /\
                               m_begin b = {| p_base := p; p_off := 0 |};
  (* the calls that were made account for the live allocations *)
  ok_count : n_malloc s = (n_free s + size (heap s))%nat
}.

(** ** The state after a successful allocating construction *)

(** The size the constructor stores: the allocator's figure where the
    platform can ask for it, the rounded request otherwise. *)
Definition stored_size `{Platform} (size u : Z) : Z :=
  match usable_api with
  | no_introspection => round_up8 size
  | _ => u
  end.

Definition constructed `{Platform}
    (this : positive) (size p u : Z) (s : state) : state :=
  {| heap := <[p := {| blk_usable := u; blk_bytes := ∅ |}]> (heap s);
     objs := <[this := {| m_begin := {| p_base := p; p_off := 0 |};
                          m_size := stored_size size u |}]> (objs s);
     n_malloc := S (n_malloc s); n_free := n_free s |}.

(** The state after [free] of a pointer that may be released. *)
Definition freed (p : pointer) (s : state) : state :=
  if is_null p then s
  else {| heap := delete (p_base p) (heap s); objs := objs s;
          n_malloc := n_malloc s; n_free := S (n_free s) |}.

(** ** Sample platforms and runs *)

Definition glibc64 : Platform :=
  {| size_width_of := W64; usable_api := glibc_malloc_usable_size;
     no_exceptions := false |}.

Definition msvc32 : Platform :=
  {| size_width_of := W32; usable_api := msvc_msize; no_exceptions := false |}.

Definition portable64 : Platform :=
  {| size_width_of := W64; usable_api := no_introspection;
     no_exceptions := false |}.

Definition portable32_noexcept : Platform :=
  {| size_width_of := W32; usable_api := no_introspection;
     no_exceptions := true |}.

(** The state of a successful run, the starting state otherwise. *)
Definition state_after `{Platform} (p : list op) (s : state) : state :=
  match run p s with
  | Ok s' => s'
  | _ => s
  end.

(** Two buffers: object 1 asked for 9 bytes and got 24 at address 4096,
    object 2 asked for 16 bytes and got 16 at address 8192, filled from
    three bytes. *)
Definition two_buffers : list op :=
  [ New 1 9 (malloc_returns 4096 24);
    NewInit 2 16 [x01; x02; x03]%byte (malloc_returns 8192 16) ].

(** The ten bytes 0..9. *)
Definition bytes_0_9 : list byte :=
  [x00; x01; x02; x03; x04; x05; x06; x07; x08; x09]%byte.

(** What a move from [b1] (holding [src] before) into [this] leaves behind:
    [b1] is empty and [this] has the size and the data pointer of [src]. *)
Definition moved (s' : state) (this b1 : positive) (src : buffer) : Prop :=
  exists dst src',
    objs s' !! b1 = Some src' /\
    buffer_ptr src' = nullptr /\ buffer_size src' = 0 /\
    buffer_empty src' = true /\
    objs s' !! this = Some dst /\
    buffer_size dst = buffer_size src /\
    buffer_ptr dst = buffer_ptr src.

Definition demo_state : state :=
  state_after (H := glibc64) two_buffers initial_state.

(** The members of objects 1 and 2 in [demo_state]. *)
Definition demo_first : buffer :=
  {| m_begin := {| p_base := 4096; p_off := 0 |}; m_size := 24 |}.

Definition demo_second : buffer :=
  {| m_begin := {| p_base := 8192; p_off := 0 |}; m_size := 16 |}.

(** The largest request the constructor's assertion lets through. *)
Definition largest_request : Z := INT32_MAX - 1.

(** ** Further members and usage *)

(** Modelled from the spec: [aux::array_view<char>], declared in
    [libtorrent/aux_/array_view.hpp], is a begin pointer and a length; the
    conversion operators below pass the length as an [int]. *)
Record array_view := { av_data : pointer; av_size : Z }.

(** [operator aux::array_view<char>()] and
    [operator aux::array_view<char const>() const] *)
Definition buffer_array_view (b : buffer) : array_view :=
  {| av_data := m_begin b; av_size := to_int (m_size b) |}.

(** [*p = c] *)
Definition store (p : pointer) (c : byte) (s : state) : result state :=
  match heap s !! p_base p with
  | Some blk =>
      if (0 <=? p_off p) && (p_off p <? blk_usable blk)
      then Ok {| heap := <[p_base p :=
                    {| blk_usable := blk_usable blk;
                       blk_bytes := <[p_off p := c]> (blk_bytes blk) |}]> (heap s);
                 objs := objs s;
                 n_malloc := n_malloc s; n_free := n_free s |}
      else Undefined
  | None => Undefined
  end.

(** [b[i] = c], through the reference that
    [char& operator[](std::size_t i)] returns. *)
Definition buffer_assign_at (b : buffer) (i : Z) (c : byte) (s : state)
  : result state :=
  torrent_assert (i <? buffer_size b);;
  store (ptr_add (m_begin b) i) c s.

(** The way to grow an allocation that the comment on the class gives:
    create a new buffer [tmp] initialised from the bytes of the existing
    one, move-assign it over the old one, and let [tmp] go out of scope. *)
Definition grow (old tmp : positive) (size : Z) (bytes : list byte)
    (r : malloc_outcome) : list op :=
  [ NewInit tmp size bytes r; MoveAssign old tmp; Delete tmp ].

(** A step refers to objects as a C++ program can: a constructor creates an
    object that does not exist yet, every other member function is called
    on and given objects that exist. *)
Definition op_refs_ok (o : op) (s : state) : Prop :=
  match o with
  | New this _ _ => objs s !! this = None
  | NewInit this _ _ _ => objs s !! this = None
  | MoveNew this b => objs s !! this = None /\ is_Some (objs s !! b)
  | MoveAssign this b => is_Some (objs s !! this) /\ is_Some (objs s !! b)
  | Swap this b => is_Some (objs s !! this) /\ is_Some (objs s !! b)
  | Delete this => is_Some (objs s !! this)
  end.

(** The error the sizing constructor ends in when [malloc] returns null. *)
Definition out_of_memory `{Platform} : result state :=
  if no_exceptions then Terminate else Throw_bad_alloc.

(** * Properties *)

(** ** Arithmetic of [std::size_t] and [round_up8] *)

Section Arith.
Context `{Platform}.

Lemma size_bits_ge32 : 32 <= size_bits.
Proof. unfold size_bits. destruct size_width_of; simpl; lia. Qed.

Lemma size_modulus_ge : 2 ^ 32 <= size_modulus.
Proof.
  unfold size_modulus. apply Z.pow_le_mono_r; [lia | apply size_bits_ge32].
Qed.

Lemma to_size_t_small v : 0 <= v < size_modulus -> to_size_t v = v.
Proof. intros Hv. unfold to_size_t. apply Z.mod_small, Hv. Qed.

Lemma to_size_t_INT32_MAX : to_size_t INT32_MAX = INT32_MAX.
Proof.
  apply to_size_t_small. pose proof size_modulus_ge.
  unfold INT32_MAX. lia.
Qed.

(** Masking with [~size_t(7)] clears the three low bits. *)
Lemma land_not7 x :
  0 <= x < size_modulus -> Z.land x (to_size_t (Z.lnot 7)) = 8 * (x / 8).
Proof.
  intros Hx. unfold to_size_t, size_modulus.
  pose proof size_bits_ge32 as Hb.
  rewrite <- Z.land_ones by lia.
  rewrite (Z.land_comm (Z.lnot 7)), Z.land_assoc.
  rewrite (Z.land_ones x) by lia.
  rewrite Z.mod_small by exact Hx.
  change (Z.land x (Z.lnot 7)) with (Z.ldiff x (Z.ones 3)).
  rewrite Z.ldiff_ones_r by lia.
  rewrite Z.shiftl_mul_pow2, Z.shiftr_div_pow2 by lia.
  change (2 ^ 3) with 8. lia.
Qed.

Lemma round_up8_eq v :
  0 <= v -> v + 7 < size_modulus -> round_up8 v = 8 * ((v + 7) / 8).
Proof.
  intros H0 H1. unfold round_up8.
  rewrite (to_size_t_small (v + 7)) by lia.
  apply land_not7. lia.
Qed.

Lemma round_up8_bounds v :
  0 <= v -> v + 7 < size_modulus ->
  v <= round_up8 v < v + 8 /\ round_up8 v mod 8 = 0.
Proof.
  intros H0 H1. rewrite round_up8_eq by assumption.
  pose proof (Z.div_mod (v + 7) 8 ltac:(lia)).
  pose proof (Z.mod_pos_bound (v + 7) 8 ltac:(lia)).
  split; [lia |].
  rewrite Z.mul_comm. apply Z.mod_mul. lia.
Qed.

(** A size that passes the constructor's assertion is far from the
    wrap-around of [v + 7]. *)
Lemma asserted_no_wrap v : v < INT32_MAX -> v + 7 < size_modulus.
Proof. pose proof size_modulus_ge. unfold INT32_MAX. lia. Qed.

Lemma round_up8_pos v : 0 < v -> v < INT32_MAX -> 8 <= round_up8 v.
Proof.
  intros H0 H1. pose proof (asserted_no_wrap v H1).
  rewrite round_up8_eq by lia.
  assert (1 <= (v + 7) / 8) by (apply Z.div_le_lower_bound; lia). lia.
Qed.

Lemma round_up8_lt_modulus v :
  0 <= v -> v < INT32_MAX -> 0 <= round_up8 v < size_modulus.
Proof.
  intros H0 H1. pose proof (asserted_no_wrap v H1).
  destruct (round_up8_bounds v H0 ltac:(assumption)) as [[? ?] _].
  pose proof size_modulus_ge. unfold INT32_MAX in *. lia.
Qed.
End Arith.

(** ** The sizing constructor, case by case *)

Section Construction.
Context `{Platform}.

Lemma is_null_base p : p <> 0 -> is_null {| p_base := p; p_off := 0 |} = false.
Proof.
  intros Hp. unfold is_null, pointer_eqb. simpl.
  apply andb_false_intro1. apply Z.eqb_neq, Hp.
Qed.

Lemma is_null_true_iff p : is_null p = true <-> p = nullptr.
Proof.
  unfold is_null, pointer_eqb. destruct p as [b o]. simpl.
  rewrite andb_true_iff, !Z.eqb_eq. unfold nullptr.
  split; [intros [-> ->]; reflexivity | intros [= -> ->]; auto].
Qed.

Lemma is_null_false_iff p : is_null p = false <-> p <> nullptr.
Proof.
  rewrite <- is_null_true_iff. destruct (is_null p); split; congruence.
Qed.

Lemma assert_size_passes size :
  size < INT32_MAX -> torrent_assert (size <? to_size_t INT32_MAX) = Ok tt.
Proof.
  intros Hs. rewrite to_size_t_INT32_MAX.
  apply Z.ltb_lt in Hs. rewrite Hs. reflexivity.
Qed.

Lemma assert_size_fails size :
  INT32_MAX <= size ->
  torrent_assert (size <? to_size_t INT32_MAX) = Assert_failed.
Proof.
  intros Hs. rewrite to_size_t_INT32_MAX.
  apply Z.ltb_ge in Hs. rewrite Hs. reflexivity.
Qed.

Lemma buffer_ctor_oversized this size r s :
  INT32_MAX <= size -> buffer_ctor this size r s = Assert_failed.
Proof.
  intros Hs. unfold buffer_ctor. rewrite assert_size_fails by exact Hs.
  reflexivity.
Qed.

Lemma buffer_ctor_zero this r s :
  buffer_ctor this 0 r s = Ok (set_obj this empty_buffer s).
Proof.
  unfold buffer_ctor. rewrite assert_size_passes by (unfold INT32_MAX; lia).
  reflexivity.
Qed.

Lemma buffer_ctor_malloc_fails this size s :
  size <> 0 -> size < INT32_MAX ->
  buffer_ctor this size malloc_fails s =
    if no_exceptions then Terminate else Throw_bad_alloc.
Proof.
  intros H0 H1. unfold buffer_ctor. rewrite assert_size_passes by exact H1.
  apply Z.eqb_neq in H0. cbn. rewrite H0. reflexivity.
Qed.

Lemma buffer_ctor_malloc_returns this size p u s :
  size <> 0 -> size < INT32_MAX -> p <> 0 ->
  buffer_ctor this size (malloc_returns p u) s = Ok (constructed this size p u s).
Proof.
  intros H0 H1 Hp. unfold buffer_ctor. rewrite assert_size_passes by exact H1.
  apply Z.eqb_neq in H0. cbn. rewrite H0.
  rewrite is_null_base by exact Hp.
  unfold malloc_usable_size, constructed, stored_size, set_m_size; cbn.
  rewrite lookup_insert_eq. cbn.
  destruct usable_api; cbn;
    rewrite !alter_insert_eq; reflexivity.
Qed.

(** Every outcome of the constructor is one of four. *)
Lemma buffer_ctor_cases this size r s :
  buffer_ctor this size r s = Assert_failed \/
  (size = 0 /\ buffer_ctor this size r s = Ok (set_obj this empty_buffer s)) \/
  (size <> 0 /\ size < INT32_MAX /\
   (r = malloc_fails \/ exists u, r = malloc_returns 0 u) /\
   buffer_ctor this size r s = if no_exceptions then Terminate else Throw_bad_alloc) \/
  (size <> 0 /\ size < INT32_MAX /\
   exists p u, p <> 0 /\ r = malloc_returns p u /\
     buffer_ctor this size r s = Ok (constructed this size p u s)).
Proof.
  destruct (Z_lt_le_dec size INT32_MAX) as [Hlt | Hge].
  2: { left. apply buffer_ctor_oversized, Hge. }
  right. destruct (Z.eq_dec size 0) as [-> | Hne].
  { left. split; [reflexivity | apply buffer_ctor_zero]. }
  right. destruct r as [| p u].
  - left. repeat split; auto. apply buffer_ctor_malloc_fails; assumption.
  - destruct (Z.eq_dec p 0) as [-> | Hp].
    + left. repeat split; eauto.
      unfold buffer_ctor. rewrite assert_size_passes by exact Hlt.
      apply Z.eqb_neq in Hne. cbn. rewrite Hne. reflexivity.
    + right. repeat split; auto. exists p, u. repeat split; auto.
      apply buffer_ctor_malloc_returns; assumption.
Qed.
End Construction.

(** ** Moves, swap and destruction, as updates of the object store *)

Lemma alter_Some {A} (f : A -> A) (m : gmap positive A) i x :
  m !! i = Some x -> alter f i m = <[i := f x]> m.
Proof.
  intros Hi. apply map_eq. intros j.
  destruct (decide (i = j)) as [<- | Hne].
  - rewrite lookup_alter_eq, lookup_insert_eq, Hi. reflexivity.
  - rewrite lookup_alter_ne, lookup_insert_ne by assumption. reflexivity.
Qed.

Lemma set_fields (this : positive) (p : pointer) (n : Z) (s : state) x :
  objs s !! this = Some x ->
  set_m_size this n (set_m_begin this p s) =
    set_obj this {| m_begin := p; m_size := n |} s.
Proof.
  intros Hx. unfold set_m_size, set_m_begin, set_obj. cbn. f_equal.
  rewrite (alter_Some _ (objs s) this x) by exact Hx.
  rewrite alter_insert_eq. reflexivity.
Qed.

Lemma objs_set_obj this b s : objs (set_obj this b s) = <[this := b]> (objs s).
Proof. reflexivity. Qed.

Lemma buffer_eta (b : buffer) : {| m_begin := m_begin b; m_size := m_size b |} = b.
Proof. destruct b; reflexivity. Qed.

Lemma objs_freed p s : objs (freed p s) = objs s.
Proof. unfold freed. destruct (is_null p); reflexivity. Qed.

Lemma free_owned p s :
  p = nullptr \/ (p_off p = 0 /\ is_Some (heap s !! p_base p)) ->
  free p s = Ok (freed p s).
Proof.
  unfold free, freed. intros [-> | [Hoff [blk Hblk]]]; [reflexivity |].
  destruct (is_null p); [reflexivity |].
  rewrite Hoff, Hblk. reflexivity.
Qed.

Lemma buffer_move_ctor_eq this b src s :
  objs s !! b = Some src -> this <> b ->
  buffer_move_ctor this b s =
    Ok (set_obj b empty_buffer (set_obj this src s)).
Proof.
  intros Hb Hne. unfold buffer_move_ctor, get_obj. rewrite Hb. cbn.
  rewrite buffer_eta.
  rewrite (set_fields b nullptr 0 (set_obj this src s) src).
  - reflexivity.
  - rewrite objs_set_obj, lookup_insert_ne by exact Hne. exact Hb.
Qed.

Lemma buffer_move_assign_self this s :
  is_Some (objs s !! this) -> buffer_move_assign this this s = Ok s.
Proof.
  intros [me Hme]. unfold buffer_move_assign, get_obj.
  rewrite decide_True by reflexivity. rewrite Hme. reflexivity.
Qed.

Lemma buffer_move_assign_eq this b me src s :
  objs s !! this = Some me -> objs s !! b = Some src -> this <> b ->
  free (m_begin me) s = Ok (freed (m_begin me) s) ->
  buffer_move_assign this b s =
    Ok (set_obj b empty_buffer (set_obj this src (freed (m_begin me) s))).
Proof.
  intros Hme Hb Hne Hfree. unfold buffer_move_assign, get_obj.
  rewrite decide_False by congruence. rewrite Hme. cbn.
  rewrite Hfree. cbn. rewrite objs_freed, Hb. cbn.
  rewrite (set_fields this (m_begin src) (m_size src) _ me)
    by (rewrite objs_freed; exact Hme).
  rewrite buffer_eta.
  rewrite (set_fields b nullptr 0 _ src).
  - reflexivity.
  - rewrite objs_set_obj, lookup_insert_ne, objs_freed by exact Hne. exact Hb.
Qed.

Lemma buffer_dtor_eq this me s :
  objs s !! this = Some me ->
  free (m_begin me) s = Ok (freed (m_begin me) s) ->
  buffer_dtor this s = Ok (del_obj this (freed (m_begin me) s)).
Proof.
  intros Hme Hfree. unfold buffer_dtor, get_obj. rewrite Hme. cbn.
  rewrite Hfree. reflexivity.
Qed.

Lemma buffer_swap_eq this b me other s :
  objs s !! this = Some me -> objs s !! b = Some other ->
  buffer_swap this b s = Ok (set_obj b me (set_obj this other s)).
Proof.
  intros Hme Hb. unfold buffer_swap, get_obj. rewrite Hme, Hb. cbn.
  f_equal. unfold set_m_size, set_m_begin, set_obj. cbn. f_equal.
  apply map_eq. intros k.
  destruct (decide (k = b)) as [-> | Hkb].
  - rewrite lookup_insert_eq, lookup_alter_eq.
    destruct (decide (this = b)) as [-> | Htb].
    + rewrite !lookup_alter_eq, Hme. cbn. rewrite buffer_eta. reflexivity.
    + rewrite lookup_alter_ne, lookup_alter_eq, lookup_alter_ne by congruence.
      rewrite Hb. cbn. rewrite buffer_eta. reflexivity.
  - rewrite lookup_insert_ne, lookup_alter_ne by congruence.
    destruct (decide (k = this)) as [-> | Hkt].
    + rewrite lookup_insert_eq, lookup_alter_eq, lookup_alter_ne, lookup_alter_eq
        by congruence.
      rewrite Hme. cbn. rewrite buffer_eta. reflexivity.
    + rewrite lookup_insert_ne, !lookup_alter_ne by congruence. reflexivity.
Qed.

(** ** The invariant is kept *)

Lemma buffer_ok_empty h : buffer_ok h empty_buffer.
Proof.
  unfold buffer_ok, empty_buffer; cbn.
  split; [tauto |]. split; [lia | congruence].
Qed.

Lemma state_ok_initial : state_ok initial_state.
Proof.
  constructor; cbn; intros *.
  - rewrite lookup_empty. discriminate.
  - rewrite lookup_empty. discriminate.
  - rewrite lookup_empty. discriminate.
  - rewrite map_size_empty. reflexivity.
Qed.

(** Two live objects with the same non-null pointer are one object. *)
Ltac same_owner Hu :=
  exfalso;
  match goal with
  | Hi : objs _ !! ?i = Some ?bi, Hj : objs _ !! ?j = Some ?bj, Hne : ?i <> ?j |- _ =>
      apply Hne; apply (Hu i j bi bj Hi Hj); congruence
  | Hi : objs _ !! ?i = Some ?bi, Hj : objs _ !! ?j = Some ?bj, Hne : ?j <> ?i |- _ =>
      apply Hne; symmetry; apply (Hu i j bi bj Hi Hj); congruence
  end.

Ltac split_lookups :=
  repeat match goal with
  | H : <[_ := _]> _ !! _ = Some _ |- _ =>
      rewrite lookup_insert in H; case_decide; simplify_eq
  | H : delete _ _ !! _ = Some _ |- _ =>
      rewrite lookup_delete in H; case_decide; simplify_eq
  end.

(** A new empty object. *)
Lemma state_ok_new_empty this s :
  state_ok s -> objs s !! this = None ->
  state_ok (set_obj this empty_buffer s).
Proof.
  intros [Hb Hu Ho Hc] Hthis. constructor; cbn.
  - intros k x Hk. split_lookups; eauto using buffer_ok_empty.
  - intros i j bi bj Hi Hj Hn He. split_lookups; cbn in *; try congruence.
    eauto.
  - intros p blk Hp. destruct (Ho p blk Hp) as (Hp0 & k & x & Hk & Hx).
    split; [exact Hp0 |]. exists k, x. split; [| exact Hx].
    rewrite lookup_insert_ne by congruence. exact Hk.
  - exact Hc.
Qed.

(** A new object owning a new allocation. *)
Lemma state_ok_new_block this p u m s :
  state_ok s -> objs s !! this = None -> heap s !! p = None ->
  p <> 0 -> 0 < m <= u ->
  state_ok
    {| heap := <[p := {| blk_usable := u; blk_bytes := ∅ |}]> (heap s);
       objs := <[this := {| m_begin := {| p_base := p; p_off := 0 |};
                            m_size := m |}]> (objs s);
       n_malloc := S (n_malloc s); n_free := n_free s |}.
Proof.
  intros [Hb Hu Ho Hc] Hthis Hfresh Hp Hm. constructor; cbn.
  - intros k x Hk. split_lookups.
    + unfold buffer_ok; cbn. split; [| split; [lia |]].
      * split; [lia | intros [= ?]; congruence].
      * intros _. split; [reflexivity |].
        rewrite lookup_insert_eq. eexists. split; [reflexivity |]. cbn. lia.
    + destruct (Hb k x Hk) as (H1 & H2 & H3).
      split; [exact H1 |]. split; [exact H2 |]. intros Hnn.
      destruct (H3 Hnn) as (Hoff & blk & Hblk & Hle).
      split; [exact Hoff |]. exists blk. split; [| exact Hle].
      rewrite lookup_insert_ne by congruence. exact Hblk.
  - intros i j bi bj Hi Hj Hn He. split_lookups; cbn in *; eauto; exfalso.
    + destruct (Hb i bi Hi) as (_ & _ & H3).
      destruct (H3 Hn) as (_ & blk & Hblk & _).
      rewrite He in Hblk. cbn in Hblk. congruence.
    + destruct (Hb j bj Hj) as (_ & _ & H3).
      destruct H3 as (_ & blk & Hblk & _); [congruence |].
      rewrite <- He in Hblk. cbn in Hblk. congruence.
  - intros q blk Hq. rewrite lookup_insert in Hq. case_decide; simplify_eq.
    + split; [exact Hp |]. exists this. eexists.
      rewrite lookup_insert_eq. split; reflexivity.
    + destruct (Ho q blk Hq) as (Hq0 & k & x & Hk & Hx).
      split; [exact Hq0 |]. exists k, x. split; [| exact Hx].
      rewrite lookup_insert_ne by congruence. exact Hk.
  - rewrite map_size_insert_None by exact Hfresh. lia.
Qed.

(** Writing into an allocation changes no size and no owner. *)
Lemma state_ok_written p blk bytes s :
  state_ok s -> heap s !! p = Some blk ->
  state_ok
    {| heap := <[p := {| blk_usable := blk_usable blk; blk_bytes := bytes |}]> (heap s);
       objs := objs s; n_malloc := n_malloc s; n_free := n_free s |}.
Proof.
  intros [Hb Hu Ho Hc] Hblk. constructor; cbn.
  - intros k x Hk. destruct (Hb k x Hk) as (H1 & H2 & H3).
    split; [exact H1 |]. split; [exact H2 |]. intros Hnn.
    destruct (H3 Hnn) as (Hoff & blk' & Hblk' & Hle). split; [exact Hoff |].
    rewrite lookup_insert. case_decide; simplify_eq.
    + eexists. split; [reflexivity |]. cbn. exact Hle.
    + eauto.
  - exact Hu.
  - intros q blk' Hq. rewrite lookup_insert in Hq. case_decide; simplify_eq; eauto.
  - rewrite map_size_insert_Some by eauto. exact Hc.
Qed.

(** Releasing the allocation of an object, which becomes empty. *)
Lemma state_ok_release this me s :
  state_ok s -> objs s !! this = Some me ->
  state_ok (set_obj this empty_buffer (freed (m_begin me) s)).
Proof.
  intros Hs Hme. pose proof Hs as [Hb Hu Ho Hc].
  unfold freed. destruct (is_null (m_begin me)) eqn:Hnull.
  - apply is_null_true_iff in Hnull. constructor; cbn.
    + intros k x Hk. split_lookups; eauto using buffer_ok_empty.
    + intros i j bi bj Hi Hj Hn He. split_lookups; cbn in *; try congruence.
      eauto.
    + intros p blk Hp. destruct (Ho p blk Hp) as (Hp0 & k & x & Hk & Hx).
      split; [exact Hp0 |]. exists k, x. split; [| exact Hx].
      rewrite lookup_insert_ne; [exact Hk |].
      intros <-. simplify_eq. rewrite Hnull in Hx. injection Hx as ?. congruence.
    + exact Hc.
  - apply is_null_false_iff in Hnull.
    destruct (Hb this me Hme) as (_ & _ & H3).
    destruct (H3 Hnull) as (Hoff & blk & Hblk & _).
    constructor; cbn.
    + intros k x Hk. split_lookups; [apply buffer_ok_empty |].
      destruct (Hb k x Hk) as (H1 & H2 & H3').
      split; [exact H1 |]. split; [exact H2 |]. intros Hnn.
      destruct (H3' Hnn) as (Hoff' & blk' & Hblk' & Hle). split; [exact Hoff' |].
      exists blk'. split; [| exact Hle].
      rewrite lookup_delete_ne; [exact Hblk' |].
      intros Hbase.
      assert (m_begin me = m_begin x)
        by (destruct (m_begin me), (m_begin x); cbn in *; congruence).
      same_owner Hu.
    + intros i j bi bj Hi Hj Hn He. split_lookups; cbn in *; try congruence.
      eauto.
    + intros p blk' Hp. rewrite lookup_delete in Hp. case_decide; simplify_eq.
      destruct (Ho p blk' Hp) as (Hp0 & k & x & Hk & Hx).
      split; [exact Hp0 |]. exists k, x. split; [| exact Hx].
      rewrite lookup_insert_ne; [exact Hk |].
      intros <-. simplify_eq. rewrite Hx in *. cbn in *. congruence.
    + rewrite map_size_delete_Some by eauto.
      assert (size (heap s) <> 0)%nat.
      { intros Hz. apply map_size_empty_iff in Hz. rewrite Hz in Hblk.
        rewrite lookup_empty in Hblk. discriminate. }
      lia.
Qed.

(** Handing the allocation of [b] to an object that owns nothing. *)
Lemma state_ok_transfer this b src s :
  state_ok s -> objs s !! b = Some src -> this <> b ->
  (objs s !! this = None \/ objs s !! this = Some empty_buffer) ->
  state_ok (set_obj b empty_buffer (set_obj this src s)).
Proof.
  intros [Hb Hu Ho Hc] Hsrc Hne Hthis. constructor; cbn.
  - intros k x Hk. split_lookups; eauto using buffer_ok_empty.
  - intros i j bi bj Hi Hj Hn He. split_lookups; cbn in *; try congruence;
      eauto; same_owner Hu.
  - intros p blk Hp. destruct (Ho p blk Hp) as (Hp0 & k & x & Hk & Hx).
    split; [exact Hp0 |].
    destruct (decide (k = b)) as [-> | Hkb].
    + exists this, x. simplify_eq.
      rewrite lookup_insert_ne, lookup_insert_eq by congruence. auto.
    + exists k, x. split; [| exact Hx].
      rewrite lookup_insert_ne by congruence.
      rewrite lookup_insert_ne; [exact Hk |].
      intros <-. destruct Hthis as [Hthis | Hthis]; simplify_eq.
      cbn in Hx. injection Hx as ?. congruence.
  - exact Hc.
Qed.

(** Forgetting an object that owns nothing. *)
Lemma state_ok_forget this s :
  state_ok s -> objs s !! this = Some empty_buffer ->
  state_ok (del_obj this s).
Proof.
  intros [Hb Hu Ho Hc] Hthis. constructor; cbn.
  - intros k x Hk. split_lookups. eauto.
  - intros i j bi bj Hi Hj Hn He. split_lookups. eauto.
  - intros p blk Hp. destruct (Ho p blk Hp) as (Hp0 & k & x & Hk & Hx).
    split; [exact Hp0 |]. exists k, x. split; [| exact Hx].
    rewrite lookup_delete_ne; [exact Hk |].
    intros <-. simplify_eq. cbn in Hx. injection Hx as ?. congruence.
  - exact Hc.
Qed.

(** Exchanging the members of two objects. *)
Lemma state_ok_swap this b me other s :
  state_ok s -> objs s !! this = Some me -> objs s !! b = Some other ->
  state_ok (set_obj b me (set_obj this other s)).
Proof.
  intros [Hb Hu Ho Hc] Hme Hother. constructor; cbn.
  - intros k x Hk. split_lookups; eauto.
  - intros i j bi bj Hi Hj Hn He. split_lookups; cbn in *; try congruence;
      eauto; same_owner Hu.
  - intros p blk Hp. destruct (Ho p blk Hp) as (Hp0 & k & x & Hk & Hx).
    split; [exact Hp0 |].
    destruct (decide (k = b)) as [-> | Hkb].
    + assert (x = other) by congruence. subst x.
      destruct (decide (this = b)) as [-> | Htb].
      * assert (me = other) by congruence. subst me.
        exists b, other. rewrite lookup_insert_eq. auto.
      * exists this, other.
        rewrite lookup_insert_ne, lookup_insert_eq by congruence. auto.
    + destruct (decide (k = this)) as [-> | Hkt].
      * assert (x = me) by congruence. subst x.
        exists b, me. rewrite lookup_insert_eq. auto.
      * exists k, x. rewrite !lookup_insert_ne by congruence. auto.
  - exact Hc.
Qed.

(** ** Every operation keeps the invariant *)

Lemma free_of_owner this me s :
  state_ok s -> objs s !! this = Some me ->
  free (m_begin me) s = Ok (freed (m_begin me) s).
Proof.
  intros Hs Hme. apply free_owned.
  destruct (ok_buffers s Hs this me Hme) as (_ & _ & H3).
  destruct (decide (m_begin me = nullptr)) as [Hn | Hn]; [left; exact Hn |].
  right. destruct (H3 Hn) as (Hoff & blk & Hblk & _). eauto.
Qed.

Lemma set_obj_twice this x y s :
  set_obj this x (set_obj this y s) = set_obj this x s.
Proof. unfold set_obj; cbn. rewrite insert_insert_eq. reflexivity. Qed.

Lemma del_obj_set_obj this x s : del_obj this (set_obj this x s) = del_obj this s.
Proof. unfold del_obj, set_obj; cbn. rewrite delete_insert_eq. reflexivity. Qed.

Lemma get_obj_Ok this s b : get_obj this s = Ok b <-> objs s !! this = Some b.
Proof.
  unfold get_obj. destruct (objs s !! this); split; intros Hx; congruence.
Qed.

Lemma fresh_obj_Ok this s : fresh_obj this s = Ok tt <-> objs s !! this = None.
Proof.
  unfold fresh_obj. destruct (objs s !! this); split; intros Hx; congruence.
Qed.

Lemma state_ok_move_assign this b me src s :
  state_ok s -> objs s !! this = Some me -> objs s !! b = Some src ->
  this <> b ->
  state_ok (set_obj b empty_buffer (set_obj this src (freed (m_begin me) s))).
Proof.
  intros Hs Hme Hsrc Hne.
  rewrite <- (set_obj_twice this src empty_buffer).
  apply state_ok_transfer.
  - apply state_ok_release; assumption.
  - rewrite objs_set_obj, lookup_insert_ne, objs_freed by exact Hne. exact Hsrc.
  - exact Hne.
  - right. rewrite objs_set_obj. apply lookup_insert_eq.
Qed.

Lemma state_ok_dtor this me s :
  state_ok s -> objs s !! this = Some me ->
  state_ok (del_obj this (freed (m_begin me) s)).
Proof.
  intros Hs Hme. rewrite <- (del_obj_set_obj this empty_buffer).
  apply state_ok_forget.
  - apply state_ok_release; assumption.
  - rewrite objs_set_obj. apply lookup_insert_eq.
Qed.

Section Steps.
Context `{Platform}.

Lemma stored_size_bounds size u :
  0 < size < INT32_MAX -> round_up8 size <= u ->
  round_up8 size <= stored_size size u <= u /\ 0 < stored_size size u.
Proof.
  intros Hs Hu. pose proof (round_up8_pos size ltac:(lia) ltac:(lia)).
  unfold stored_size. destruct usable_api; lia.
Qed.

Lemma state_ok_constructed this size p u s :
  state_ok s -> objs s !! this = None ->
  0 < size < INT32_MAX ->
  malloc_consistent (heap s) (round_up8 size) (malloc_returns p u) ->
  state_ok (constructed this size p u s).
Proof.
  intros Hs Hthis Hsize (Hp & Hfresh & Hu & _).
  destruct (stored_size_bounds size u Hsize Hu) as [[_ ?] ?].
  apply state_ok_new_block; auto; lia.
Qed.

Lemma buffer_ctor_keeps_ok this size r s s' :
  state_ok s -> objs s !! this = None ->
  0 <= size -> malloc_consistent (heap s) (round_up8 size) r ->
  buffer_ctor this size r s = Ok s' -> state_ok s'.
Proof.
  intros Hs Hthis H0 Hr Hrun.
  destruct (buffer_ctor_cases this size r s)
    as [Hc | [[-> Hc] | [(_ & _ & _ & Hc) | (Hne & Hlt & p & u & Hp & -> & Hc)]]];
    rewrite Hc in Hrun.
  - discriminate.
  - injection Hrun as <-. apply state_ok_new_empty; assumption.
  - destruct no_exceptions; discriminate.
  - injection Hrun as <-. apply state_ok_constructed; auto. lia.
Qed.

Lemma memcpy_keeps_ok dst src n s s' :
  state_ok s -> memcpy dst src n s = Ok s' -> state_ok s'.
Proof.
  intros Hs. unfold memcpy.
  destruct (heap s !! p_base dst) as [blk |] eqn:Hblk; [| discriminate].
  destruct (_ && _); [| discriminate].
  intros [= <-]. apply state_ok_written; assumption.
Qed.

Lemma buffer_ctor_init_keeps_ok this size initialize r s s' :
  state_ok s -> objs s !! this = None ->
  0 <= size -> malloc_consistent (heap s) (round_up8 size) r ->
  buffer_ctor_init this size initialize r s = Ok s' -> state_ok s'.
Proof.
  intros Hs Hthis H0 Hr. unfold buffer_ctor_init.
  destruct (buffer_ctor this size r s) as [s1 | | | |] eqn:Hctor;
    try discriminate.
  pose proof (buffer_ctor_keeps_ok _ _ _ _ _ Hs Hthis H0 Hr Hctor) as Hs1.
  cbn. destruct (torrent_assert _); try discriminate. cbn.
  destruct (_ >? 0).
  - destruct (get_obj this s1) as [me | | | |]; try discriminate. cbn.
    apply memcpy_keeps_ok, Hs1.
  - intros [= <-]. exact Hs1.
Qed.

Lemma buffer_move_ctor_keeps_ok this b s s' :
  state_ok s -> objs s !! this = None ->
  buffer_move_ctor this b s = Ok s' -> state_ok s'.
Proof.
  intros Hs Hthis Hrun.
  destruct (objs s !! b) as [src |] eqn:Hb.
  - assert (this <> b) by congruence.
    rewrite (buffer_move_ctor_eq this b src) in Hrun by assumption.
    injection Hrun as <-. apply state_ok_transfer; auto.
  - unfold buffer_move_ctor, get_obj in Hrun. rewrite Hb in Hrun. discriminate.
Qed.

Lemma buffer_move_assign_keeps_ok this b s s' :
  state_ok s -> buffer_move_assign this b s = Ok s' -> state_ok s'.
Proof.
  intros Hs Hrun.
  destruct (objs s !! this) as [me |] eqn:Hme.
  2: { unfold buffer_move_assign, get_obj in Hrun. rewrite Hme in Hrun.
       destruct (decide (b = this)); discriminate. }
  destruct (decide (b = this)) as [-> | Hne].
  { rewrite buffer_move_assign_self in Hrun by eauto. congruence. }
  destruct (objs s !! b) as [src |] eqn:Hb.
  - rewrite (buffer_move_assign_eq this b me src) in Hrun
      by eauto using free_of_owner.
    injection Hrun as <-. apply state_ok_move_assign; auto.
  - unfold buffer_move_assign, get_obj in Hrun.
    rewrite decide_False, Hme in Hrun by exact Hne. cbn in Hrun.
    rewrite (free_of_owner this me s Hs Hme) in Hrun. cbn in Hrun.
    rewrite objs_freed, Hb in Hrun. discriminate.
Qed.

Lemma buffer_swap_keeps_ok this b s s' :
  state_ok s -> buffer_swap this b s = Ok s' -> state_ok s'.
Proof.
  intros Hs Hrun.
  destruct (objs s !! this) as [me |] eqn:Hme.
  2: { unfold buffer_swap, get_obj in Hrun. rewrite Hme in Hrun. discriminate. }
  destruct (objs s !! b) as [other |] eqn:Hb.
  2: { unfold buffer_swap, get_obj in Hrun. rewrite Hme, Hb in Hrun.
       discriminate. }
  rewrite (buffer_swap_eq this b me other) in Hrun by assumption.
  injection Hrun as <-. apply state_ok_swap; assumption.
Qed.

Lemma buffer_dtor_keeps_ok this s s' :
  state_ok s -> buffer_dtor this s = Ok s' -> state_ok s'.
Proof.
  intros Hs Hrun.
  destruct (objs s !! this) as [me |] eqn:Hme.
  2: { unfold buffer_dtor, get_obj in Hrun. rewrite Hme in Hrun. discriminate. }
  rewrite (buffer_dtor_eq this me) in Hrun by eauto using free_of_owner.
  injection Hrun as <-. apply state_ok_dtor; assumption.
Qed.

Lemma exec_op_keeps_ok o s s' :
  state_ok s -> op_env_ok o s -> exec_op o s = Ok s' -> state_ok s'.
Proof.
  intros Hs Henv Hrun. destruct o as [this size r | this size ini r | this b | this b | this b | this];
    cbn in Hrun, Henv.
  - destruct (fresh_obj this s) as [[] | | | |] eqn:Hf; try discriminate.
    apply fresh_obj_Ok in Hf. destruct Henv as [[? _] ?].
    eapply buffer_ctor_keeps_ok; eauto.
  - destruct (fresh_obj this s) as [[] | | | |] eqn:Hf; try discriminate.
    apply fresh_obj_Ok in Hf. destruct Henv as [[? _] ?].
    eapply buffer_ctor_init_keeps_ok; eauto.
  - destruct (fresh_obj this s) as [[] | | | |] eqn:Hf; try discriminate.
    apply fresh_obj_Ok in Hf.
    eapply buffer_move_ctor_keeps_ok; eauto.
  - eapply buffer_move_assign_keeps_ok; eauto.
  - eapply buffer_swap_keeps_ok; eauto.
  - eapply buffer_dtor_keeps_ok; eauto.
Qed.

Lemma reachable_ok s : reachable s -> state_ok s.
Proof.
  induction 1 as [| s o s' _ IH Henv Hrun].
  - apply state_ok_initial.
  - eapply exec_op_keeps_ok; eauto.
Qed.
End Steps.

(** ** Reading and writing the bytes of an allocation *)

Lemma store_bytes_lookup n : forall src off m k,
  (n <= length src)%nat ->
  store_bytes off src n m !! k =
    if decide (off <= k < off + Z.of_nat n)
    then src !! Z.to_nat (k - off)
    else m !! k.
Proof.
  induction n as [| n IH]; intros src off m k Hlen.
  - cbn. rewrite decide_False by lia. destruct src; reflexivity.
  - destruct src as [| c src]; [cbn in Hlen; lia |].
    cbn [store_bytes]. rewrite IH by (cbn in Hlen; lia).
    destruct (decide (off + 1 <= k < off + 1 + Z.of_nat n)) as [Hin | Hout].
    + rewrite decide_True by lia.
      replace (Z.to_nat (k - off)) with (S (Z.to_nat (k - (off + 1)))) by lia.
      reflexivity.
    + destruct (decide (k = off)) as [-> | Hk].
      * rewrite decide_True by lia. rewrite lookup_insert_eq.
        replace (off - off) with 0 by lia. reflexivity.
      * rewrite decide_False by lia. apply lookup_insert_ne. congruence.
Qed.

Lemma load_block p blk i s :
  heap s !! p = Some blk -> 0 <= i < blk_usable blk ->
  load {| p_base := p; p_off := i |} s = Ok (blk_bytes blk !! i).
Proof.
  intros Hblk Hi. unfold load. cbn. rewrite Hblk.
  destruct (Z.leb_spec 0 i); [| lia].
  destruct (Z.ltb_spec i (blk_usable blk)); [| lia]. reflexivity.
Qed.

Lemma buffer_index_out_of_range b i s :
  buffer_size b <= i -> buffer_index b i s = Assert_failed.
Proof.
  intros Hi. unfold buffer_index.
  destruct (Z.ltb_spec i (buffer_size b)); [lia | reflexivity].
Qed.

Lemma buffer_index_in_range b p blk i s :
  m_begin b = {| p_base := p; p_off := 0 |} ->
  heap s !! p = Some blk -> m_size b <= blk_usable blk ->
  0 <= i < buffer_size b ->
  buffer_index b i s = Ok (blk_bytes blk !! i).
Proof.
  intros Hp Hblk Hle Hi. unfold buffer_index, buffer_size in *.
  destruct (Z.ltb_spec i (m_size b)); [| lia]. cbn.
  rewrite Hp. unfold ptr_add. cbn. apply load_block; [exact Hblk | lia].
Qed.

(** * Specified behaviour *)

(** ** Construction *)

(** C9. [buffer(0)] allocates nothing: the heap and the count of [malloc]
    calls are as before, the new object has a null [m_begin], [size() == 0]
    and [empty() == true], and [operator[]] fails its assertion at every
    index. *)
Theorem allocate_zero_is_empty `{Platform} this r s :
  exists s' b,
    buffer_ctor this 0 r s = Ok s' /\
    heap s' = heap s /\ n_malloc s' = n_malloc s /\
    objs s' !! this = Some b /\
    buffer_ptr b = nullptr /\ buffer_size b = 0 /\ buffer_empty b = true /\
    forall i, 0 <= i -> buffer_index b i s' = Assert_failed.
Proof.
  exists (set_obj this empty_buffer s), empty_buffer.
  split; [apply buffer_ctor_zero |].
  repeat split.
  - rewrite objs_set_obj. apply lookup_insert_eq.
  - intros i Hi. apply buffer_index_out_of_range. cbn. exact Hi.
Qed.

(** The mask of [round_up8] on unbounded integers. *)
Lemma land_lnot7 x : Z.land x (Z.lnot 7) = 8 * (x / 8).
Proof.
  change (Z.land x (Z.lnot 7)) with (Z.ldiff x (Z.ones 3)).
  rewrite Z.ldiff_ones_r by lia.
  rewrite Z.shiftl_mul_pow2, Z.shiftr_div_pow2 by lia.
  change (2 ^ 3) with 8. lia.
Qed.

Lemma objs_constructed `{Platform} this size p u s :
  objs (constructed this size p u s) !! this =
    Some {| m_begin := {| p_base := p; p_off := 0 |};
            m_size := stored_size size u |}.
Proof. unfold constructed; cbn. apply lookup_insert_eq. Qed.

Lemma consistent_base `{Platform} h n p u :
  malloc_consistent h n (malloc_returns p u) -> p <> 0.
Proof. intros (Hp & _). lia. Qed.

(** C10. Without allocator introspection (the [#else] branch), a request of
    [size] bytes with [0 < size] below the asserted bound yields
    [size() == round_up8(size)], which is [(size + 7) & ~7] and a multiple
    of 8. *)
Theorem portable_size_is_round_up8 `{Platform} this size p u s :
  usable_api = no_introspection ->
  0 < size < INT32_MAX ->
  malloc_consistent (heap s) (round_up8 size) (malloc_returns p u) ->
  exists s' b,
    buffer_ctor this size (malloc_returns p u) s = Ok s' /\
    objs s' !! this = Some b /\
    buffer_size b = round_up8 size /\
    round_up8 size = Z.land (size + 7) (Z.lnot 7) /\
    buffer_size b mod 8 = 0.
Proof.
  intros Hapi Hsize Hr.
  pose proof (asserted_no_wrap size ltac:(lia)) as Hwrap.
  destruct (round_up8_bounds size ltac:(lia) Hwrap) as [_ Hmod].
  eexists _, _.
  split; [apply buffer_ctor_malloc_returns; [lia | lia | eapply consistent_base, Hr] |].
  split; [apply objs_constructed |].
  unfold buffer_size, stored_size; cbn. rewrite Hapi.
  split; [reflexivity |]. split; [| exact Hmod].
  rewrite land_lnot7. apply round_up8_eq; lia.
Qed.

Lemma portable_size_is_round_up8_witness :
  exists s' b,
    buffer_ctor (H := portable64) 1 9 (malloc_returns 4096 24) initial_state = Ok s' /\
    objs s' !! 1%positive = Some b /\
    buffer_size b = round_up8 (H := portable64) 9 /\
    round_up8 (H := portable64) 9 = Z.land (9 + 7) (Z.lnot 7) /\
    buffer_size b mod 8 = 0.
Proof.
  apply (portable_size_is_round_up8 (H := portable64)).
  - reflexivity.
  - unfold INT32_MAX. lia.
  - vm_compute. repeat split; congruence.
Defined.

(** C2. A request of [size] bytes, [0 < size] below the asserted bound,
    answered by the allocator with [u] usable bytes, [u] at least the
    rounded request: the constructor returns a buffer whose [size()] is at
    least [round_up8(size)], the next multiple of 8 from [size] on; where
    the platform asks the allocator, [size()] is what it answers, so it is
    strictly larger whenever the allocator reserved more. *)
Theorem ctor_size_at_least_round_up8 `{Platform} this size p u s :
  0 < size < INT32_MAX ->
  malloc_consistent (heap s) (round_up8 size) (malloc_returns p u) ->
  exists s' b,
    buffer_ctor this size (malloc_returns p u) s = Ok s' /\
    objs s' !! this = Some b /\
    round_up8 size <= buffer_size b /\
    (size <= round_up8 size < size + 8 /\ round_up8 size mod 8 = 0) /\
    (usable_api <> no_introspection -> buffer_size b = u) /\
    (usable_api <> no_introspection -> round_up8 size < u ->
       round_up8 size < buffer_size b).
Proof.
  intros Hsize Hr.
  pose proof (asserted_no_wrap size ltac:(lia)) as Hwrap.
  pose proof (round_up8_bounds size ltac:(lia) Hwrap) as Hround.
  destruct Hr as (Hp & Hfresh & Hu & Hmax).
  destruct (stored_size_bounds size u Hsize Hu) as [[Hlo _] _].
  eexists _, _.
  split; [apply buffer_ctor_malloc_returns; lia |].
  split; [apply objs_constructed |].
  unfold buffer_size; cbn. split; [exact Hlo |]. split; [exact Hround |].
  unfold stored_size. split.
  - intros Hapi. destruct usable_api; congruence.
  - intros Hapi Hmore. destruct usable_api; congruence || lia.
Qed.

Lemma ctor_size_at_least_round_up8_witness :
  exists s' b,
    buffer_ctor (H := glibc64) 1 9 (malloc_returns 4096 24) initial_state = Ok s' /\
    objs s' !! 1%positive = Some b /\
    round_up8 (H := glibc64) 9 <= buffer_size b /\
    (9 <= round_up8 (H := glibc64) 9 < 9 + 8 /\ round_up8 (H := glibc64) 9 mod 8 = 0) /\
    (usable_api (Platform := glibc64) <> no_introspection -> buffer_size b = 24) /\
    (usable_api (Platform := glibc64) <> no_introspection ->
       round_up8 (H := glibc64) 9 < 24 -> round_up8 (H := glibc64) 9 < buffer_size b).
Proof.
  apply (ctor_size_at_least_round_up8 (H := glibc64)).
  - unfold INT32_MAX. lia.
  - vm_compute. repeat split; congruence.
Defined.

(** The allocator may give more than was asked: 9 bytes requested, 16
    after rounding, 24 reported and stored. *)
Example ctor_size_strictly_larger :
  exists s' b,
    buffer_ctor (H := glibc64) 1 9 (malloc_returns 4096 24) initial_state = Ok s' /\
    objs s' !! 1%positive = Some b /\
    round_up8 (H := glibc64) 9 = 16 /\ buffer_size b = 24.
Proof. eexists _, _. repeat split. Qed.

Lemma memcpy_block p blk src n s :
  heap s !! p = Some blk -> 0 <= n <= blk_usable blk ->
  n <= Z.of_nat (length src) ->
  memcpy {| p_base := p; p_off := 0 |} src n s =
    Ok {| heap := <[p := {| blk_usable := blk_usable blk;
                            blk_bytes := store_bytes 0 src (Z.to_nat n)
                                           (blk_bytes blk) |}]> (heap s);
          objs := objs s; n_malloc := n_malloc s; n_free := n_free s |}.
Proof.
  intros Hblk Hn Hsrc. unfold memcpy. cbn [p_base p_off]. rewrite Hblk.
  replace ((0 <=? 0) && (0 <=? n) && (0 + n <=? blk_usable blk)
           && (n <=? Z.of_nat (length src))) with true; [reflexivity |].
  symmetry. rewrite !andb_true_iff, !Z.leb_le. lia.
Qed.

(** C8. When [malloc] returns null for a request of [size > 0] bytes, the
    constructor does not return: within the asserted bound it throws
    [std::bad_alloc], or calls [std::terminate] where exceptions are
    disabled. Whenever the constructor does return, from a state that
    satisfies the invariant and under a conforming allocator, the invariant
    holds again and the new object satisfies the class invariant. *)
Theorem ctor_out_of_memory `{Platform} this size s :
  0 < size ->
  (size < INT32_MAX ->
     buffer_ctor this size malloc_fails s =
       if no_exceptions then Terminate else Throw_bad_alloc) /\
  (forall s', buffer_ctor this size malloc_fails s <> Ok s') /\
  (forall r s',
     state_ok s -> objs s !! this = None ->
     malloc_consistent (heap s) (round_up8 size) r ->
     buffer_ctor this size r s = Ok s' ->
     state_ok s' /\ exists b, objs s' !! this = Some b /\ buffer_ok (heap s') b).
Proof.
  intros Hpos. split; [| split].
  - intros Hlt. apply buffer_ctor_malloc_fails; lia.
  - intros s' Hrun.
    destruct (Z_lt_le_dec size INT32_MAX) as [Hlt | Hge].
    + rewrite buffer_ctor_malloc_fails in Hrun by lia.
      destruct no_exceptions; discriminate.
    + rewrite buffer_ctor_oversized in Hrun by exact Hge. discriminate.
  - intros r s' Hs Hthis Hr Hrun.
    assert (state_ok s') as Hs'
      by (eapply buffer_ctor_keeps_ok; eauto; lia).
    split; [exact Hs' |].
    destruct (buffer_ctor_cases this size r s)
      as [Hc | [[-> Hc] | [(_ & _ & _ & Hc) | (Hne & Hlt & p & u & Hp & -> & Hc)]]];
      rewrite Hc in Hrun; try discriminate; try lia.
    + destruct no_exceptions; discriminate.
    + injection Hrun as <-. eexists. split; [apply objs_constructed |].
      eapply (ok_buffers _ Hs'), objs_constructed.
Qed.

Lemma ctor_out_of_memory_witness :
  (9 < INT32_MAX ->
     buffer_ctor (H := portable32_noexcept) 1 9 malloc_fails initial_state =
       Terminate) /\
  (forall s',
     buffer_ctor (H := portable32_noexcept) 1 9 malloc_fails initial_state <> Ok s') /\
  (forall r s',
     state_ok initial_state -> objs initial_state !! 1%positive = None ->
     malloc_consistent (H := portable32_noexcept) (heap initial_state)
       (round_up8 (H := portable32_noexcept) 9) r ->
     buffer_ctor (H := portable32_noexcept) 1 9 r initial_state = Ok s' ->
     state_ok s' /\
     exists b, objs s' !! 1%positive = Some b /\ buffer_ok (heap s') b).
Proof.
  apply (ctor_out_of_memory (H := portable32_noexcept) 1 9 initial_state).
  lia.
Defined.

(** What [buffer(size, initialize)] leaves in the object [this]. *)
Lemma ctor_init_zero `{Platform} this r s :
  buffer_ctor_init this 0 [] r s = Ok (set_obj this empty_buffer s).
Proof. unfold buffer_ctor_init. rewrite buffer_ctor_zero. reflexivity. Qed.

Lemma ctor_init_granted `{Platform} this size initialize p u s :
  0 < size ->
  Z.of_nat (length initialize) <= size ->
  size < INT32_MAX ->
  malloc_consistent (heap s) (round_up8 size) (malloc_returns p u) ->
  exists s',
    buffer_ctor_init this size initialize (malloc_returns p u) s = Ok s' /\
    exists b,
      objs s' !! this = Some b /\
      round_up8 size <= buffer_size b /\
      (0 < size ->
         exists blk, heap s' !! p_base (buffer_ptr b) = Some blk /\
           blk_bytes blk =
             store_bytes 0 initialize
               (Z.to_nat (Z.min (Z.of_nat (length initialize)) size)) ∅) /\
      (forall i c, initialize !! i = Some c ->
         buffer_index b (Z.of_nat i) s' = Ok (Some c)) /\
      (forall i, Z.of_nat (length initialize) <= i < buffer_size b ->
         buffer_index b i s' = Ok None).
Proof.
  intros H0 Hlen Hlt Hr.
  unfold buffer_ctor_init.
  pose proof Hr as (Hp & Hfresh & Hu & Hmax).
  destruct (stored_size_bounds size u ltac:(lia) Hu) as [[Hlo Hhi] Hpos].
  pose proof (asserted_no_wrap size Hlt) as Hwrap.
  destruct (round_up8_bounds size ltac:(lia) Hwrap) as [[Hge _] _].
  rewrite buffer_ctor_malloc_returns by lia. cbn.
  destruct (Z.leb_spec (Z.of_nat (length initialize)) size) as [_ | ?]; [| lia].
  cbn. rewrite Z.min_l by exact Hlen.
  destruct (Z.gtb_spec (Z.of_nat (length initialize)) 0) as [Hsome | Hnone].
  - unfold get_obj. rewrite objs_constructed. cbn.
    erewrite memcpy_block; [| cbn; apply lookup_insert_eq | cbn; lia | lia].
    cbn. rewrite Nat2Z.id.
    eexists. split; [reflexivity |]. eexists. cbn.
    split; [apply lookup_insert_eq |].
    split; [exact Hlo |].
    split; [intros _; eexists; cbn; rewrite lookup_insert_eq; split; reflexivity |].
    split.
    + intros i c Hi. pose proof (lookup_lt_Some _ _ _ Hi) as Hi'.
      erewrite buffer_index_in_range;
        [| reflexivity | cbn; apply lookup_insert_eq | cbn; lia
         | unfold buffer_size; cbn; lia ].
      cbn. rewrite store_bytes_lookup by lia.
      rewrite decide_True by lia.
      replace (Z.to_nat (Z.of_nat i - 0)) with i by lia.
      rewrite Hi. reflexivity.
    + intros i Hi. unfold buffer_size in Hi. cbn in Hi.
      erewrite buffer_index_in_range;
        [| reflexivity | cbn; apply lookup_insert_eq | cbn; lia
         | unfold buffer_size; cbn; lia ].
      cbn. rewrite store_bytes_lookup by lia.
      rewrite decide_False by lia. reflexivity.
  - assert (initialize = []) as -> by (destruct initialize; [reflexivity | cbn in Hnone; lia]).
    eexists. split; [reflexivity |]. eexists.
    split; [apply objs_constructed |].
    split; [exact Hlo |].
    split; [intros _; eexists; cbn; split; [apply lookup_insert_eq | reflexivity] |].
    split.
    + intros i c Hi. rewrite lookup_nil in Hi. discriminate.
    + intros i Hi. unfold buffer_size in Hi. cbn in Hi.
      erewrite buffer_index_in_range;
        [| reflexivity | cbn; apply lookup_insert_eq | cbn; lia
         | unfold buffer_size; cbn; lia ].
      reflexivity.
Qed.

(** The constructor with an initializer returns only after the sizing
    constructor has. *)
Lemma buffer_ctor_init_Ok `{Platform} this size initialize r s s' :
  buffer_ctor_init this size initialize r s = Ok s' ->
  exists s1, buffer_ctor this size r s = Ok s1.
Proof.
  unfold buffer_ctor_init.
  destruct (buffer_ctor this size r s) as [s1 | | | |]; try discriminate.
  eauto.
Qed.

(** C3. [buffer(size, initialize)] with [initialize.size() <= size] and a
    conforming allocator. Whenever the constructor returns, the allocation
    holds the first [min(initialize.size(), size)] bytes of [initialize]
    from offset 0 on, reading the buffer at [i] gives [initialize[i]] for
    every [i] below [initialize.size()] and an indeterminate byte from
    there to [size()], and [size()] is at least [round_up8(size)], which is
    the multiple of 8 from [size] to [size + 7]. It does return when [size]
    is within the asserted bound and [size] is 0 or the allocation is
    granted. *)
Theorem ctor_init_copies_prefix `{Platform} this size initialize r s :
  0 <= size ->
  Z.of_nat (length initialize) <= size ->
  malloc_consistent (heap s) (round_up8 size) r ->
  (forall s',
     buffer_ctor_init this size initialize r s = Ok s' ->
     exists b,
       objs s' !! this = Some b /\
       round_up8 size <= buffer_size b /\
       (size <= round_up8 size < size + 8 /\ round_up8 size mod 8 = 0) /\
       (0 < size ->
          exists blk, heap s' !! p_base (buffer_ptr b) = Some blk /\
            blk_bytes blk =
              store_bytes 0 initialize
                (Z.to_nat (Z.min (Z.of_nat (length initialize)) size)) ∅) /\
       (forall i c, initialize !! i = Some c ->
          buffer_index b (Z.of_nat i) s' = Ok (Some c)) /\
       (forall i, Z.of_nat (length initialize) <= i < buffer_size b ->
          buffer_index b i s' = Ok None)) /\
  (size < INT32_MAX -> size = 0 \/ r <> malloc_fails ->
     exists s', buffer_ctor_init this size initialize r s = Ok s').
Proof.
  intros H0 Hlen Hr. split.
  - intros s' Hrun.
    destruct (buffer_ctor_init_Ok _ _ _ _ _ _ Hrun) as [s1 Hctor].
    assert (size < INT32_MAX) as Hbound.
    { destruct (Z_lt_le_dec size INT32_MAX) as [Hlt | Hge]; [exact Hlt |].
      rewrite buffer_ctor_oversized in Hctor by exact Hge. discriminate. }
    pose proof (round_up8_bounds size H0 (asserted_no_wrap size Hbound)) as Hround.
    cut (exists b,
           objs s' !! this = Some b /\
           round_up8 size <= buffer_size b /\
           (0 < size ->
              exists blk, heap s' !! p_base (buffer_ptr b) = Some blk /\
                blk_bytes blk =
                  store_bytes 0 initialize
                    (Z.to_nat (Z.min (Z.of_nat (length initialize)) size)) ∅) /\
           (forall i c, initialize !! i = Some c ->
              buffer_index b (Z.of_nat i) s' = Ok (Some c)) /\
           (forall i, Z.of_nat (length initialize) <= i < buffer_size b ->
              buffer_index b i s' = Ok None)).
    { intros (b & Hb & Hsz & Hrest). exists b. auto. }
    destruct (buffer_ctor_cases this size r s)
      as [Hc | [[-> Hc] | [(_ & _ & _ & Hc) | (Hne & Hlt & p & u & Hp & -> & Hc)]]];
      rewrite Hc in Hctor; try discriminate.
    + assert (initialize = []) as ->
        by (destruct initialize; [reflexivity | cbn in Hlen; lia]).
      rewrite ctor_init_zero in Hrun. injection Hrun as <-.
      exists empty_buffer.
      split; [apply lookup_insert_eq |].
      split.
      { rewrite round_up8_eq; [| lia | apply asserted_no_wrap; reflexivity].
        change ((0 + 7) / 8) with 0. change (buffer_size empty_buffer) with 0. lia. }
      split; [lia |]. split.
      * intros i c Hi. rewrite lookup_nil in Hi. discriminate.
      * cbn. lia.
    + destruct no_exceptions; discriminate.
    + destruct (ctor_init_granted this size initialize p u s
                  ltac:(lia) Hlen Hlt Hr) as (s2 & Hrun2 & Hpost).
      rewrite Hrun2 in Hrun. injection Hrun as <-. exact Hpost.
  - intros Hlt Hgranted.
    destruct (Z.eq_dec size 0) as [-> | Hne].
    + assert (initialize = []) as ->
        by (destruct initialize; [reflexivity | cbn in Hlen; lia]).
      rewrite ctor_init_zero. eauto.
    + destruct r as [| p u]; [destruct Hgranted; congruence |].
      destruct (ctor_init_granted this size initialize p u s
                  ltac:(lia) Hlen Hlt Hr) as (s2 & Hrun2 & _).
      eauto.
Qed.

(** The spec's example: 16 bytes requested and filled from the ten bytes
    0..9; the constructor returns, the size is at least 16, the first ten
    bytes read as given and byte 10 is indeterminate. *)
Lemma ctor_init_copies_prefix_witness :
  exists s' b,
    buffer_ctor_init (H := glibc64) 1 16 bytes_0_9 (malloc_returns 4096 24)
      initial_state = Ok s' /\
    objs s' !! 1%positive = Some b /\
    16 <= buffer_size b /\
    (16 <= round_up8 (H := glibc64) 16 < 16 + 8 /\
     round_up8 (H := glibc64) 16 mod 8 = 0) /\
    (forall i c, bytes_0_9 !! i = Some c ->
       buffer_index b (Z.of_nat i) s' = Ok (Some c)) /\
    buffer_index b 10 s' = Ok None.
Proof.
  destruct (ctor_init_copies_prefix (H := glibc64) 1 16 bytes_0_9
              (malloc_returns 4096 24) initial_state)
    as (Hpost & Hruns).
  - lia.
  - vm_compute. congruence.
  - vm_compute. repeat split; congruence.
  - destruct Hruns as (s' & Hrun); [reflexivity | right; discriminate |].
    destruct (Hpost s' Hrun) as (b & Hb & Hsize & Hround & _ & Hread & Hrest).
    exists s', b.
    split; [exact Hrun |]. split; [exact Hb |]. split; [exact Hsize |].
    split; [exact Hround |]. split; [exact Hread |].
    apply Hrest. change (Z.of_nat (length bytes_0_9)) with 10.
    change (round_up8 (H := glibc64) 16) with 16 in Hsize. lia.
Defined.

(** ** Ownership transfer *)

(** C1. Moving from a non-empty [b1] into another object [this], by the
    move constructor when [this] does not exist yet and by move assignment
    when it does: the operation returns, [b1] is left with a null
    [m_begin], [m_size == 0] and [empty() == true], and [this] has the size
    and the data pointer [b1] had before. *)
Theorem move_empties_source this b1 src s :
  state_ok s -> objs s !! b1 = Some src -> buffer_empty src = false ->
  this <> b1 ->
  (objs s !! this = None ->
     exists s', buffer_move_ctor this b1 s = Ok s' /\
       moved s' this b1 src) /\
  (is_Some (objs s !! this) ->
     exists s', buffer_move_assign this b1 s = Ok s' /\
       moved s' this b1 src).
Proof.
  intros Hs Hsrc _ Hne.
  assert (forall s0, moved (set_obj b1 empty_buffer (set_obj this src s0)) this b1 src)
    as Hmoved.
  { intros s0. exists src, empty_buffer. rewrite !objs_set_obj.
    split; [apply lookup_insert_eq |]. repeat split.
    rewrite lookup_insert_ne by congruence. apply lookup_insert_eq. }
  split.
  - intros Hnew. eexists. split; [apply (buffer_move_ctor_eq this b1 src); auto |].
    apply Hmoved.
  - intros [me Hme]. eexists.
    split; [apply (buffer_move_assign_eq this b1 me src);
            eauto using free_of_owner |].
    apply Hmoved.
Qed.

(** C5. Move-assigning a live object onto itself returns with the state as
    it was: the object's members, the heap and the count of released
    allocations are unchanged. *)
Theorem self_move_is_noop this b s :
  objs s !! this = Some b ->
  exists s',
    buffer_move_assign this this s = Ok s' /\
    objs s' !! this = Some b /\
    heap s' = heap s /\ n_free s' = n_free s /\ s' = s.
Proof.
  intros Hb. exists s. split; [apply buffer_move_assign_self; eauto |].
  repeat split. exact Hb.
Qed.

(** ** Runs *)

Section Runs.
Context `{Platform}.

Lemma run_reachable p : forall s s',
  reachable s -> run_env_ok p s -> run p s = Ok s' -> reachable s'.
Proof.
  induction p as [| o p IH]; intros s s' Hs Henv Hrun.
  - injection Hrun as <-. exact Hs.
  - cbn in Hrun, Henv. destruct Henv as [Ho Hrest].
    destruct (exec_op o s) as [s1 | | | |] eqn:Hstep; try discriminate.
    apply (IH s1 s'); [| exact Hrest | exact Hrun].
    eapply reachable_step; eauto.
Qed.

Lemma state_after_reachable p s :
  reachable s -> run_env_ok p s -> reachable (state_after p s).
Proof.
  intros Hs Henv. unfold state_after.
  destruct (run p s) as [s' | | | |] eqn:Hrun; try exact Hs.
  eapply run_reachable; eauto.
Qed.

(** With no object left, no allocation is left. *)
Lemma no_objects_no_blocks s : state_ok s -> objs s = ∅ -> heap s = ∅.
Proof.
  intros Hs Hobjs. apply map_empty. intros p.
  destruct (heap s !! p) as [blk |] eqn:Hp; [| reflexivity].
  destruct (ok_owned s Hs p blk Hp) as (_ & k & b & Hk & _).
  rewrite Hobjs, lookup_empty in Hk. discriminate.
Qed.

Lemma balanced_when_empty s :
  state_ok s -> objs s = ∅ -> heap s = ∅ /\ n_malloc s = n_free s.
Proof.
  intros Hs Hobjs. pose proof (no_objects_no_blocks s Hs Hobjs) as Hheap.
  split; [exact Hheap |].
  rewrite (ok_count s Hs), Hheap, map_size_empty. lia.
Qed.

(** Destroying each live object once succeeds and leaves nothing. *)
Lemma destroy_all_run l : forall s,
  state_ok s -> NoDup l -> (forall k, k ∈ l <-> is_Some (objs s !! k)) ->
  exists s', run (destroy_all l) s = Ok s' /\ state_ok s' /\ objs s' = ∅.
Proof.
  induction l as [| k l IH]; intros s Hs Hnd Hdom.
  - exists s. split; [reflexivity |]. split; [exact Hs |].
    apply map_empty. intros k.
    destruct (objs s !! k) as [b |] eqn:Hk; [| reflexivity].
    assert (k ∈ @nil positive) as Hin by (apply Hdom; eauto).
    inversion Hin.
  - destruct (proj1 (Hdom k) ltac:(left)) as [me Hme].
    apply NoDup_cons in Hnd as [Hnotin Hnd].
    destruct (IH (del_obj k (freed (m_begin me) s))) as (s' & Hrun & Hs' & Hobjs).
    + apply state_ok_dtor; assumption.
    + exact Hnd.
    + intros j. cbn. rewrite objs_freed. split.
      * intros Hj. rewrite lookup_delete_ne by (intros ->; contradiction).
        apply Hdom. right. exact Hj.
      * intros Hj. rewrite lookup_delete in Hj. case_decide; [destruct Hj; discriminate |].
        apply Hdom in Hj. inversion Hj; subst; [congruence | assumption].
    + exists s'. split; [| split; assumption].
      cbn. rewrite (buffer_dtor_eq k me) by eauto using free_of_owner.
      cbn. exact Hrun.
Qed.

Lemma destroy_live_objects s :
  state_ok s ->
  exists s', run (destroy_all (live_objects s)) s = Ok s' /\
             objs s' = ∅ /\ heap s' = ∅ /\ n_malloc s' = n_free s'.
Proof.
  intros Hs.
  destruct (destroy_all_run (live_objects s) s Hs) as (s' & Hrun & Hs' & Hobjs).
  - unfold live_objects. apply NoDup_elements.
  - intros k. unfold live_objects. rewrite elem_of_elements, elem_of_dom.
    reflexivity.
  - exists s'. split; [exact Hrun |]. split; [exact Hobjs |].
    apply balanced_when_empty; assumption.
Qed.
End Runs.

(** C4. Move assignment into a different, non-empty object [this] releases
    one allocation, the one [this] held, and does so before the members are
    taken over: that allocation was live and is gone afterwards, every
    other allocation stays (the one handed over among them), the count of
    released allocations grows by one and no [malloc] is made. In every
    state a program reaches, the [malloc] calls exceed the releases by the
    number of live allocations, and destroying the live objects brings the
    two counts level with nothing left on the heap. *)
Theorem move_assign_releases_once `{Platform} :
  (forall this b d src s,
     state_ok s -> objs s !! this = Some d -> buffer_empty d = false ->
     objs s !! b = Some src -> this <> b ->
     exists s1 s' blk,
       free (buffer_ptr d) s = Ok s1 /\
       s' = set_obj b empty_buffer (set_obj this src s1) /\
       buffer_move_assign this b s = Ok s' /\
       heap s !! p_base (buffer_ptr d) = Some blk /\
       heap s' = delete (p_base (buffer_ptr d)) (heap s) /\
       S (size (heap s')) = size (heap s) /\
       n_free s' = S (n_free s) /\ n_malloc s' = n_malloc s /\
       (buffer_ptr src <> nullptr ->
          is_Some (heap s' !! p_base (buffer_ptr src)))) /\
  (forall s,
     reachable s ->
     n_malloc s = (n_free s + size (heap s))%nat /\
     exists s', run (destroy_all (live_objects s)) s = Ok s' /\
                objs s' = ∅ /\ heap s' = ∅ /\ n_malloc s' = n_free s').
Proof.
  split.
  - intros this b d src s Hs Hd Hne Hsrc Hdist. unfold buffer_ptr.
    destruct (ok_buffers s Hs this d Hd) as (Hz & _ & Hlive).
    assert (m_begin d <> nullptr) as Hnn.
    { intros Hnull. apply Hz in Hnull. unfold buffer_empty in Hne.
      rewrite Hnull in Hne. discriminate. }
    destruct (Hlive Hnn) as (Hoff & blk & Hblk & _).
    exists (freed (m_begin d) s). eexists _, blk.
    split; [eapply free_of_owner; eauto |].
    split; [reflexivity |].
    split; [apply (buffer_move_assign_eq this b d src);
            eauto using free_of_owner |].
    split; [exact Hblk |].
    unfold freed. pose proof Hnn as Hnn'.
    apply is_null_false_iff in Hnn'. rewrite Hnn'. cbn.
    split; [reflexivity |].
    split; [| split; [reflexivity | split; [reflexivity |]]].
    + rewrite map_size_delete_Some by eauto.
      assert (size (heap s) <> 0)%nat; [| lia].
      intros Hsz. apply map_size_empty_iff in Hsz.
      rewrite Hsz, lookup_empty in Hblk. discriminate.
    + intros Hsnn.
      destruct (ok_buffers s Hs b src Hsrc) as (_ & _ & Hslive).
      destruct (Hslive Hsnn) as (Hsoff & sblk & Hsblk & _).
      rewrite lookup_delete_ne; [eauto |].
      intros Hbase. apply Hdist.
      apply (ok_unique s Hs this b d src Hd Hsrc Hnn).
      destruct (m_begin d), (m_begin src); cbn in *; congruence.
  - intros s Hreach. pose proof (reachable_ok s Hreach) as Hs.
    split; [apply (ok_count s Hs) |].
    apply destroy_live_objects, Hs.
Qed.

(** ** The class invariant *)

(** C7. In every state a program reaches by constructions, moves, swaps
    and destructions, each object has [m_size == 0] exactly when [m_begin]
    is null, and a non-null [m_begin] is the start of a live allocation of
    at least [m_size] bytes that no other object points to. *)
Theorem reachable_buffer_invariant `{Platform} s this b :
  reachable s -> objs s !! this = Some b ->
  (buffer_size b = 0 <-> buffer_ptr b = nullptr) /\
  (buffer_ptr b <> nullptr ->
     p_off (buffer_ptr b) = 0 /\
     (exists blk, heap s !! p_base (buffer_ptr b) = Some blk /\
                  buffer_size b <= blk_usable blk) /\
     forall other b', objs s !! other = Some b' ->
                      buffer_ptr b' = buffer_ptr b -> other = this).
Proof.
  intros Hreach Hb. pose proof (reachable_ok s Hreach) as Hs.
  destruct (ok_buffers s Hs this b Hb) as (Hz & _ & Hlive).
  split; [exact Hz |]. intros Hnn.
  destruct (Hlive Hnn) as (Hoff & Hblk).
  split; [exact Hoff |]. split; [exact Hblk |].
  intros other b' Hother Heq. symmetry.
  apply (ok_unique s Hs this other b b' Hb Hother Hnn).
  symmetry. exact Heq.
Qed.

(** ** A concrete run *)

Lemma demo_state_reachable : reachable (H := glibc64) demo_state.
Proof.
  apply (state_after_reachable (H := glibc64)); [apply reachable_init |].
  vm_compute. repeat split; congruence.
Qed.

Lemma demo_state_ok : state_ok demo_state.
Proof. apply (reachable_ok (H := glibc64)), demo_state_reachable. Qed.

Example demo_state_objects :
  objs demo_state !! 1%positive = Some demo_first /\
  objs demo_state !! 2%positive = Some demo_second /\
  objs demo_state !! 3%positive = None.
Proof. repeat split. Qed.

(** Object 2 takes over from object 1 by move assignment. *)
Lemma move_empties_source_witness :
  exists s',
    buffer_move_assign 2 1 demo_state = Ok s' /\
    moved s' 2 1 demo_first.
Proof.
  apply (move_empties_source 2 1 demo_first demo_state).
  - apply demo_state_ok.
  - reflexivity.
  - reflexivity.
  - discriminate.
  - exists demo_second. reflexivity.
Defined.

(** The same move by the move constructor, into a new object 3. *)
Example move_construct_from_demo :
  exists s',
    buffer_move_ctor 3 1 demo_state = Ok s' /\
    moved s' 3 1 demo_first.
Proof.
  eexists. split; [reflexivity |].
  eexists _, _. repeat split.
Qed.

Lemma self_move_is_noop_witness :
  exists s',
    buffer_move_assign 1 1 demo_state = Ok s' /\
    objs s' !! 1%positive = Some demo_first /\
    heap s' = heap demo_state /\ n_free s' = n_free demo_state /\
    s' = demo_state.
Proof.
  apply (self_move_is_noop 1 demo_first demo_state).
  reflexivity.
Defined.

Lemma move_assign_releases_once_witness :
  exists s1 s' blk,
    free (buffer_ptr demo_second) demo_state = Ok s1 /\
    s' = set_obj 1 empty_buffer (set_obj 2 demo_first s1) /\
    buffer_move_assign 2 1 demo_state = Ok s' /\
    heap demo_state !! p_base (buffer_ptr demo_second) = Some blk /\
    heap s' = delete (p_base (buffer_ptr demo_second)) (heap demo_state) /\
    S (size (heap s')) = size (heap demo_state) /\
    n_free s' = S (n_free demo_state) /\ n_malloc s' = n_malloc demo_state /\
    (buffer_ptr demo_first <> nullptr ->
       is_Some (heap s' !! p_base (buffer_ptr demo_first))).
Proof.
  apply (proj1 (move_assign_releases_once (H := glibc64)) 2 1
           demo_second demo_first demo_state)%positive.
  - apply demo_state_ok.
  - reflexivity.
  - reflexivity.
  - reflexivity.
  - discriminate.
Defined.

(** After that move assignment and the destruction of both objects, two
    allocations were made and two released. *)
Example demo_balance :
  exists s',
    run (H := glibc64) [MoveAssign 2 1; Delete 1; Delete 2] demo_state = Ok s' /\
    n_malloc s' = 2%nat /\ n_free s' = 2%nat /\ heap s' = ∅.
Proof. eexists. repeat split. Qed.

Lemma reachable_buffer_invariant_witness :
  (buffer_size demo_first = 0 <-> buffer_ptr demo_first = nullptr) /\
  (buffer_ptr demo_first <> nullptr ->
     p_off (buffer_ptr demo_first) = 0 /\
     (exists blk, heap demo_state !! p_base (buffer_ptr demo_first) = Some blk /\
                  buffer_size demo_first <= blk_usable blk) /\
     forall other b', objs demo_state !! other = Some b' ->
                      buffer_ptr b' = buffer_ptr demo_first ->
                      other = 1%positive).
Proof.
  apply (reachable_buffer_invariant (H := glibc64) demo_state 1 demo_first).
  - apply demo_state_reachable.
  - reflexivity.
Defined.

(** ** Interval views of a buffer *)

Lemma to_int_small x : - 2 ^ 31 <= x < 2 ^ 31 -> to_int x = x.
Proof. intros Hx. unfold to_int. rewrite Z.mod_small; lia. Qed.

Lemma ptr_cmp_same_base (p : pointer) (i j : Z) :
  ptr_lt (ptr_add p i) (ptr_add p j) = Ok (i <? j) /\
  ptr_ge (ptr_add p j) (ptr_add p i) = Ok (j >=? i) /\
  ptr_diff (ptr_add p j) (ptr_add p i) = Ok (j - i).
Proof.
  unfold ptr_lt, ptr_ge, ptr_diff, ptr_add. cbn. rewrite Z.eqb_refl.
  repeat split; f_equal.
  - destruct (Z.ltb_spec (p_off p + i) (p_off p + j)),
             (Z.ltb_spec i j); lia || reflexivity.
  - rewrite !Z.geb_leb.
    destruct (Z.leb_spec (p_off p + i) (p_off p + j)),
             (Z.leb_spec i j); lia || reflexivity.
  - lia.
Qed.

Lemma ptr_add_0 p : ptr_add p 0 = p.
Proof. destruct p. unfold ptr_add. cbn. f_equal. lia. Qed.

Lemma interval_left_of_buffer b :
  0 <= m_size b ->
  interval_left (buffer_data b) =
    if m_size b <? INT_MAX then Ok (m_size b) else Assert_failed.
Proof.
  intros Hn. unfold interval_left, buffer_data. cbn [iv_begin iv_end].
  destruct (ptr_cmp_same_base (m_begin b) 0 (m_size b)) as (_ & Hge & Hdiff).
  rewrite ptr_add_0 in Hge, Hdiff. rewrite Hge, Hdiff. cbn.
  rewrite Z.geb_leb. destruct (Z.leb_spec 0 (m_size b)); [| lia]. cbn.
  rewrite Z.sub_0_r.
  destruct (Z.ltb_spec (m_size b) INT_MAX) as [Hlt | Hge']; [| reflexivity].
  cbn. rewrite to_int_small; [reflexivity |]. unfold INT_MAX in Hlt. lia.
Qed.

Lemma to_int_in_range i : - INT_MAX - 1 <= i <= INT_MAX -> to_int i = i.
Proof.
  intros Hi. apply to_int_small. unfold INT_MAX in Hi.
  change (2 ^ 31) with 2147483648. lia.
Qed.

Lemma ptr_offset_in_block p blk n s :
  heap s !! p = Some blk -> 0 <= n <= blk_usable blk ->
  ptr_offset {| p_base := p; p_off := 0 |} n s = Ok {| p_base := p; p_off := n |}.
Proof.
  intros Hblk Hn. unfold ptr_offset. cbn.
  destruct (Z.eqb_spec n 0) as [-> | Hne]; [reflexivity |].
  rewrite Hblk, Z.add_0_l.
  destruct (Z.leb_spec 0 n); [| lia].
  destruct (Z.leb_spec n (blk_usable blk)); [| lia]. reflexivity.
Qed.

Lemma ptr_offset_out_of_block p blk n s :
  heap s !! p = Some blk -> n < 0 \/ (0 < n /\ blk_usable blk < n) ->
  ptr_offset {| p_base := p; p_off := 0 |} n s = Undefined.
Proof.
  intros Hblk Hn. unfold ptr_offset. cbn.
  destruct (Z.eqb_spec n 0) as [-> | Hne]; [lia |].
  rewrite Hblk, Z.add_0_l.
  destruct (Z.leb_spec 0 n); destruct (Z.leb_spec n (blk_usable blk));
    try reflexivity; lia.
Qed.

Lemma ptr_offset_no_block a n s :
  heap s !! p_base a = None -> n <> 0 -> ptr_offset a n s = Undefined.
Proof.
  intros Hnone Hn. unfold ptr_offset.
  destruct (Z.eqb_spec n 0); [contradiction |]. rewrite Hnone. reflexivity.
Qed.

(** [operator[]] on the view of a buffer that owns a live allocation. *)
Lemma interval_index_in_block b p blk i s :
  m_begin b = {| p_base := p; p_off := 0 |} -> heap s !! p = Some blk ->
  0 <= m_size b <= blk_usable blk -> - INT_MAX - 1 <= i <= INT_MAX ->
  interval_index (buffer_data b) i s =
    if (i <? 0) || ((0 <? i) && (blk_usable blk <? i)) then Undefined
    else if i <? m_size b then Ok (blk_bytes blk !! i)
    else Assert_failed.
Proof.
  intros Hp Hblk Hsize Hint. unfold interval_index, buffer_data.
  cbn [iv_begin iv_end]. rewrite to_int_in_range by exact Hint. rewrite Hp.
  destruct (Z.ltb_spec i 0) as [Hneg | Hpos]; cbn [orb].
  { rewrite (ptr_offset_out_of_block p blk) by auto. reflexivity. }
  destruct (Z.ltb_spec 0 i) as [Hi0 | Hi0];
    destruct (Z.ltb_spec (blk_usable blk) i) as [Hbig | Hfit]; cbn [andb].
  - rewrite (ptr_offset_out_of_block p blk) by auto. reflexivity.
  - rewrite (ptr_offset_in_block p blk) by (auto; lia). cbn.
    unfold ptr_lt, ptr_add. cbn. rewrite Z.eqb_refl, Z.add_0_l. cbn.
    destruct (Z.ltb_spec i (m_size b)); cbn; [| reflexivity].
    apply load_block; [exact Hblk | lia].
  - lia.
  - assert (i = 0) as -> by lia.
    rewrite (ptr_offset_in_block p blk) by (auto; lia). cbn.
    unfold ptr_lt, ptr_add. cbn. rewrite Z.eqb_refl, Z.add_0_l. cbn.
    destruct (Z.ltb_spec 0 (m_size b)); cbn; [| reflexivity].
    apply load_block; [exact Hblk | lia].
Qed.

(** [operator[]] on the view of an empty buffer. *)
Lemma interval_index_of_empty b i s :
  m_begin b = nullptr -> m_size b = 0 -> heap s !! 0 = None ->
  - INT_MAX - 1 <= i <= INT_MAX ->
  interval_index (buffer_data b) i s =
    if i =? 0 then Assert_failed else Undefined.
Proof.
  intros Hp Hsize Hnone Hint. unfold interval_index, buffer_data.
  cbn [iv_begin iv_end]. rewrite to_int_in_range by exact Hint. rewrite Hp, Hsize.
  destruct (Z.eqb_spec i 0) as [-> | Hne]; [reflexivity |].
  rewrite ptr_offset_no_block by (cbn; auto). reflexivity.
Qed.

(** The read-only view indexes as the view it was made from. *)
Lemma const_interval_index_of iv i s :
  const_interval_index (const_interval_of iv) i s = interval_index iv i s.
Proof. reflexivity. Qed.

(** What holds of the view of a buffer whose size is below [INT_MAX]:
    [left()] is the size, index [size - 1] passes the assertion and reads
    the last byte, index [size] fails the assertion. *)
Lemma interval_of_buffer_below_int_max s this b :
  state_ok s -> objs s !! this = Some b ->
  0 < buffer_size b < INT_MAX ->
  interval_left (buffer_data b) = Ok (buffer_size b) /\
  (exists c, interval_index (buffer_data b) (buffer_size b - 1) s = Ok c) /\
  interval_index (buffer_data b) (buffer_size b) s = Assert_failed.
Proof.
  intros Hs Hb Hn. unfold buffer_size in *.
  destruct (ok_buffers s Hs this b Hb) as (Hz & _ & Hlive).
  assert (m_begin b <> nullptr) as Hnn by (intros Hnull; apply Hz in Hnull; lia).
  destruct (Hlive Hnn) as (Hoff & blk & Hblk & Hle).
  assert (m_begin b = {| p_base := p_base (m_begin b); p_off := 0 |}) as Hp
    by (destruct (m_begin b); cbn in *; congruence).
  split; [| split].
  - rewrite interval_left_of_buffer by lia.
    destruct (Z.ltb_spec (m_size b) INT_MAX); [reflexivity | lia].
  - rewrite (interval_index_in_block b (p_base (m_begin b)) blk) by (auto; lia).
    destruct (Z.ltb_spec (m_size b - 1) 0); [lia |].
    destruct (Z.ltb_spec (blk_usable blk) (m_size b - 1)); [lia |].
    rewrite andb_false_r. cbn.
    destruct (Z.ltb_spec (m_size b - 1) (m_size b)); [eauto | lia].
  - rewrite (interval_index_in_block b (p_base (m_begin b)) blk) by (auto; lia).
    destruct (Z.ltb_spec (m_size b) 0); [lia |].
    destruct (Z.ltb_spec (blk_usable blk) (m_size b)); [lia |].
    rewrite andb_false_r. cbn.
    destruct (Z.ltb_spec (m_size b) (m_size b)); [lia | reflexivity].
Qed.

(** A request within seven bytes of the asserted bound is rounded up to
    [2^31]; the stored size is then at least [2^31] on every platform, and
    [left()] on the buffer's view fails its second assertion. *)
Lemma ctor_near_bound_breaks_left `{Platform} this size p u s :
  INT32_MAX - 7 < size < INT32_MAX ->
  malloc_consistent (heap s) (round_up8 size) (malloc_returns p u) ->
  exists s' b,
    buffer_ctor this size (malloc_returns p u) s = Ok s' /\
    objs s' !! this = Some b /\
    INT_MAX < buffer_size b /\
    interval_left (buffer_data b) = Assert_failed.
Proof.
  intros Hsize Hr. pose proof Hr as (Hp & _ & Hu & _).
  unfold INT32_MAX in Hsize.
  assert (round_up8 size = 2147483648) as Hround.
  { rewrite round_up8_eq by (try apply asserted_no_wrap; unfold INT32_MAX; lia).
    assert ((size + 7) / 8 = 268435456); [| lia].
    symmetry. apply (Z.div_unique _ _ _ (size + 7 - 2147483648)); lia. }
  destruct (stored_size_bounds size u ltac:(unfold INT32_MAX; lia) Hu)
    as [[Hlo _] _].
  eexists _, _.
  split; [apply buffer_ctor_malloc_returns; unfold INT32_MAX; lia |].
  split; [apply objs_constructed |].
  unfold buffer_size; cbn. rewrite Hround in Hlo. unfold INT_MAX.
  split; [lia |].
  rewrite interval_left_of_buffer by (cbn; lia). cbn.
  destruct (Z.ltb_spec (stored_size size u) INT_MAX) as [Hlt | _];
    [unfold INT_MAX in Hlt; lia | reflexivity].
Qed.

(** C6, at the largest request the constructor accepts: [2^31 - 2] bytes
    pass the assertion [size < INT32_MAX], are rounded up to [2^31] and
    stored as the size on a platform without introspection; on the view
    returned by [data()], [end - begin] is [2^31], not below [INT_MAX], and
    [left()] fails its assertion. With introspection the stored size is the
    allocator's figure, which is no smaller. *)
Theorem interval_left_fails_at_largest_request :
  largest_request < INT32_MAX /\
  (exists s' b,
     buffer_ctor (H := portable64) 1 largest_request
       (malloc_returns 4096 2147483648) initial_state = Ok s' /\
     objs s' !! 1%positive = Some b /\
     buffer_size b = 2147483648 /\
     interval_left (buffer_data b) = Assert_failed /\
     const_interval_left (buffer_data_const b) = Assert_failed) /\
  (exists s' b,
     buffer_ctor (H := glibc64) 1 largest_request
       (malloc_returns 4096 2147487720) initial_state = Ok s' /\
     objs s' !! 1%positive = Some b /\
     buffer_size b = 2147487720 /\
     interval_left (buffer_data b) = Assert_failed /\
     const_interval_left (buffer_data_const b) = Assert_failed).
Proof.
  split; [reflexivity |].
  split; eexists _, _; repeat split.
Qed.

(** * Further properties of the code *)

(** ** [round_up8] *)

Lemma size_modulus_cases `{Platform} :
  size_modulus = 4294967296 \/ size_modulus = 18446744073709551616.
Proof.
  unfold size_modulus, size_bits. destruct size_width_of; cbn; auto.
Qed.

Lemma round_up8_wrapped `{Platform} v :
  round_up8 v = 8 * (to_size_t (v + 7) / 8).
Proof.
  unfold round_up8. apply land_not7. unfold to_size_t.
  apply Z.mod_pos_bound. pose proof size_modulus_ge. lia.
Qed.

(** X1. [round_up8(v)] is the least multiple of 8 that is at least [v], as
    long as [v + 7] does not wrap around. *)
Theorem round_up8_least_multiple `{Platform} v :
  0 <= v -> v + 7 < size_modulus ->
  v <= round_up8 v /\ round_up8 v mod 8 = 0 /\
  forall m, m mod 8 = 0 -> v <= m -> round_up8 v <= m.
Proof.
  intros H0 H1.
  destruct (round_up8_bounds v H0 H1) as [[Hge Hlt] Hmod].
  split; [exact Hge |]. split; [exact Hmod |].
  intros m Hm Hvm.
  pose proof (Z.div_mod m 8 ltac:(lia)) as Hdm.
  pose proof (Z.div_mod (round_up8 v) 8 ltac:(lia)) as Hdr.
  rewrite Hm in Hdm. rewrite Hmod in Hdr. lia.
Qed.

Lemma round_up8_least_multiple_witness :
  1000 <= round_up8 (H := msvc32) 1000 /\
  round_up8 (H := msvc32) 1000 mod 8 = 0 /\
  forall m, m mod 8 = 0 -> 1000 <= m -> round_up8 (H := msvc32) 1000 <= m.
Proof.
  apply (round_up8_least_multiple (H := msvc32) 1000).
  - lia.
  - reflexivity.
Defined.

(** X2. [round_up8] leaves multiples of 8 alone, so rounding twice is rounding
    once, and it is monotone. *)
Theorem round_up8_idempotent_monotone `{Platform} v w :
  0 <= v <= w -> w + 7 < size_modulus ->
  (v mod 8 = 0 -> round_up8 v = v) /\
  round_up8 (round_up8 v) = round_up8 v /\
  round_up8 v <= round_up8 w.
Proof.
  intros Hvw Hw.
  assert (forall x, 0 <= x -> x + 7 < size_modulus -> x mod 8 = 0 ->
                    round_up8 x = x) as Hfix.
  { intros x Hx0 Hx1 Hxm.
    destruct (round_up8_bounds x Hx0 Hx1) as [[Hge Hlt] Hmod].
    pose proof (Z.div_mod x 8 ltac:(lia)) as Hdx.
    pose proof (Z.div_mod (round_up8 x) 8 ltac:(lia)) as Hdr.
    rewrite Hxm in Hdx. rewrite Hmod in Hdr. lia. }
  assert (v + 7 < size_modulus) as Hv by lia.
  destruct (round_up8_bounds v ltac:(lia) Hv) as [[Hge Hlt] Hmod].
  split; [intros Hm; apply Hfix; lia |].
  split.
  - apply Hfix; [lia | | exact Hmod].
    pose proof (Z.div_mod (round_up8 v) 8 ltac:(lia)) as Hd.
    rewrite Hmod in Hd.
    destruct size_modulus_cases as [Hm | Hm]; rewrite Hm in *; lia.
  - rewrite !round_up8_eq by lia.
    assert ((v + 7) / 8 <= (w + 7) / 8) by (apply Z.div_le_mono; lia). lia.
Qed.

Lemma round_up8_idempotent_monotone_witness :
  (9 mod 8 = 0 -> round_up8 (H := glibc64) 9 = 9) /\
  round_up8 (H := glibc64) (round_up8 (H := glibc64) 9) = round_up8 (H := glibc64) 9 /\
  round_up8 (H := glibc64) 9 <= round_up8 (H := glibc64) 17.
Proof.
  apply (round_up8_idempotent_monotone (H := glibc64) 9 17).
  - lia.
  - reflexivity.
Defined.

(** X3. On the seven largest values of [std::size_t] the sum [v + 7] wraps
    around and [round_up8] returns 0, less than its argument. *)
Theorem round_up8_wraps_to_zero `{Platform} v :
  size_modulus - 7 <= v < size_modulus -> round_up8 v = 0.
Proof.
  intros Hv. pose proof size_modulus_ge as HM. rewrite round_up8_wrapped.
  assert (to_size_t (v + 7) = v + 7 - size_modulus) as ->.
  { unfold to_size_t. symmetry. apply (Z.mod_unique _ _ 1); lia. }
  rewrite Z.div_small by lia. lia.
Qed.

Lemma round_up8_wraps_to_zero_witness :
  round_up8 (H := msvc32) 4294967295 = 0.
Proof.
  apply (round_up8_wraps_to_zero (H := msvc32) 4294967295).
  vm_compute. split; congruence.
Defined.

(** ** Failing constructions *)

(** X4. A request at or above [INT32_MAX] fails the assertion of both
    constructors, whatever the allocator would have answered. *)
Theorem ctor_rejects_oversized `{Platform} this size initialize r s :
  INT32_MAX <= size ->
  buffer_ctor this size r s = Assert_failed /\
  buffer_ctor_init this size initialize r s = Assert_failed.
Proof.
  intros Hs.
  assert (buffer_ctor this size r s = Assert_failed) as Hc.
  { unfold buffer_ctor. rewrite assert_size_fails by exact Hs. reflexivity. }
  split; [exact Hc |]. unfold buffer_ctor_init. rewrite Hc. reflexivity.
Qed.

Lemma ctor_rejects_oversized_witness :
  buffer_ctor (H := glibc64) 1 2147483647 (malloc_returns 4096 2147483648)
    initial_state = Assert_failed /\
  buffer_ctor_init (H := glibc64) 1 2147483647 [] (malloc_returns 4096 2147483648)
    initial_state = Assert_failed.
Proof.
  apply (ctor_rejects_oversized (H := glibc64)). unfold INT32_MAX. lia.
Defined.

(** X5. An initializer longer than the requested size fails the assertion of
    the second constructor, but only after the sizing constructor has run:
    when [malloc] returns null for a non-zero request, the out-of-memory
    error comes first. *)
Theorem ctor_init_too_long `{Platform} this size initialize s :
  0 <= size < INT32_MAX ->
  size < Z.of_nat (length initialize) ->
  (size <> 0 ->
     buffer_ctor_init this size initialize malloc_fails s = out_of_memory) /\
  (forall p u, p <> 0 ->
     buffer_ctor_init this size initialize (malloc_returns p u) s = Assert_failed) /\
  (size = 0 ->
     forall r, buffer_ctor_init this size initialize r s = Assert_failed).
Proof.
  intros Hsize Hlen. unfold buffer_ctor_init. split; [| split].
  - intros Hne. rewrite buffer_ctor_malloc_fails by lia.
    unfold out_of_memory. destruct no_exceptions; reflexivity.
  - intros p u Hp. destruct (Z.eq_dec size 0) as [-> | Hne].
    + rewrite buffer_ctor_zero. cbn.
      destruct (Z.leb_spec (Z.of_nat (length initialize)) 0); [lia | reflexivity].
    + rewrite buffer_ctor_malloc_returns by lia. cbn.
      destruct (Z.leb_spec (Z.of_nat (length initialize)) size); [lia | reflexivity].
  - intros -> r. rewrite buffer_ctor_zero. cbn.
    destruct (Z.leb_spec (Z.of_nat (length initialize)) 0); [lia | reflexivity].
Qed.

Lemma ctor_init_too_long_witness :
  (2 <> 0 ->
     buffer_ctor_init (H := glibc64) 1 2 bytes_0_9 malloc_fails initial_state =
       out_of_memory (H := glibc64)) /\
  (forall p u, p <> 0 ->
     buffer_ctor_init (H := glibc64) 1 2 bytes_0_9 (malloc_returns p u)
       initial_state = Assert_failed) /\
  (2 = 0 ->
     forall r, buffer_ctor_init (H := glibc64) 1 2 bytes_0_9 r initial_state =
       Assert_failed).
Proof.
  apply (ctor_init_too_long (H := glibc64) 1 2 bytes_0_9 initial_state).
  - unfold INT32_MAX. lia.
  - vm_compute. reflexivity.
Defined.

(** ** Reading a buffer *)

Lemma buffer_index_same_block b i s s' :
  heap s' !! p_base (m_begin b) = heap s !! p_base (m_begin b) ->
  buffer_index b i s' = buffer_index b i s.
Proof.
  intros Hheap. unfold buffer_index, load, ptr_add. cbn.
  rewrite Hheap. reflexivity.
Qed.

Lemma owned_block s this b :
  state_ok s -> objs s !! this = Some b -> buffer_size b <> 0 ->
  exists p blk,
    m_begin b = {| p_base := p; p_off := 0 |} /\ p <> 0 /\
    heap s !! p = Some blk /\ m_size b <= blk_usable blk.
Proof.
  intros Hs Hb Hne. unfold buffer_size in Hne.
  destruct (ok_buffers s Hs this b Hb) as (Hz & _ & Hlive).
  assert (m_begin b <> nullptr) as Hnn by (intros Hn; apply Hz in Hn; lia).
  destruct (Hlive Hnn) as (Hoff & blk & Hblk & Hle).
  exists (p_base (m_begin b)), blk.
  split; [destruct (m_begin b); cbn in *; congruence |].
  split; [apply (ok_owned s Hs _ blk Hblk) |]. auto.
Qed.

(** X6. The constructor does not initialise the memory: in a buffer it has
    just built, every byte below [size()] can be read and is
    indeterminate. *)
Theorem ctor_leaves_bytes_indeterminate `{Platform} this size p u s :
  0 < size < INT32_MAX ->
  malloc_consistent (heap s) (round_up8 size) (malloc_returns p u) ->
  exists s' b,
    buffer_ctor this size (malloc_returns p u) s = Ok s' /\
    objs s' !! this = Some b /\
    forall i, 0 <= i < buffer_size b -> buffer_index b i s' = Ok None.
Proof.
  intros Hsize Hr. pose proof Hr as (Hp & _ & Hu & _).
  destruct (stored_size_bounds size u Hsize Hu) as [[_ Hhi] _].
  eexists _, _.
  split; [apply buffer_ctor_malloc_returns; lia |].
  split; [apply objs_constructed |].
  intros i Hi. unfold buffer_size in Hi. cbn in Hi.
  erewrite buffer_index_in_range;
    [| reflexivity | cbn; apply lookup_insert_eq | cbn; lia
     | unfold buffer_size; cbn; lia ].
  reflexivity.
Qed.

Lemma ctor_leaves_bytes_indeterminate_witness :
  exists s' b,
    buffer_ctor (H := glibc64) 1 9 (malloc_returns 4096 24) initial_state = Ok s' /\
    objs s' !! 1%positive = Some b /\
    forall i, 0 <= i < buffer_size b -> buffer_index b i s' = Ok None.
Proof.
  apply (ctor_leaves_bytes_indeterminate (H := glibc64)).
  - unfold INT32_MAX. lia.
  - vm_compute. repeat split; congruence.
Defined.

Lemma no_block_at_null s : state_ok s -> heap s !! 0 = None.
Proof.
  intros Hs. destruct (heap s !! 0) as [blk |] eqn:Hblk; [| reflexivity].
  destruct (ok_owned s Hs 0 blk Hblk) as [Hne _]. congruence.
Qed.



(** ** Views *)

(** X9. [interval::operator[]] has no check of the lower bound. With a
    negative [int] index the pointer [begin + index] that the assertion
    compares lies before the allocation of a live buffer, or is arithmetic
    on the null pointer of an empty one, and forming it is undefined; the
    read-only view behaves the same. *)
Theorem interval_index_negative_unchecked s this b i :
  state_ok s -> objs s !! this = Some b -> - INT_MAX - 1 <= i < 0 ->
  interval_index (buffer_data b) i s = Undefined /\
  const_interval_index (buffer_data_const b) i s = Undefined.
Proof.
  intros Hs Hb Hi.
  assert (interval_index (buffer_data b) i s = Undefined) as Hiv.
  { destruct (ok_buffers s Hs this b Hb) as (Hz & Hpos & Hlive).
    destruct (decide (m_begin b = nullptr)) as [Hn | Hn].
    - rewrite (interval_index_of_empty b i s Hn)
        by (try apply Hz; try apply no_block_at_null; auto; lia).
      destruct (Z.eqb_spec i 0); [lia | reflexivity].
    - destruct (Hlive Hn) as (Hoff & blk & Hblk & Hle).
      rewrite (interval_index_in_block b (p_base (m_begin b)) blk);
        [| destruct (m_begin b); cbn in *; congruence | exact Hblk | lia | lia].
      destruct (Z.ltb_spec i 0); [reflexivity | lia]. }
  split; [exact Hiv |].
  unfold buffer_data_const. rewrite const_interval_index_of. exact Hiv.
Qed.

Lemma interval_index_negative_unchecked_witness :
  interval_index (buffer_data demo_first) (-1) demo_state = Undefined /\
  const_interval_index (buffer_data_const demo_first) (-1) demo_state = Undefined.
Proof.
  apply (interval_index_negative_unchecked demo_state 1 demo_first (-1)).
  - apply demo_state_ok.
  - reflexivity.
  - vm_compute. split; congruence.
Defined.

(** X10. [left()] on a view inside one allocation: it returns [end - begin]
    unchanged by the conversion to [int] when that is at least 0 and below
    [INT_MAX], and fails an assertion otherwise; the read-only view
    behaves the same. *)
Theorem interval_left_in_one_allocation (iv : interval) :
  p_base (iv_begin iv) = p_base (iv_end iv) ->
  interval_left iv =
    (if (0 <=? p_off (iv_end iv) - p_off (iv_begin iv))
        && (p_off (iv_end iv) - p_off (iv_begin iv) <? INT_MAX)
     then Ok (p_off (iv_end iv) - p_off (iv_begin iv))
     else Assert_failed) /\
  const_interval_left (const_interval_of iv) = interval_left iv.
Proof.
  intros Hbase. split; [| reflexivity].
  unfold interval_left, ptr_ge, ptr_diff.
  rewrite <- Hbase, Z.eqb_refl. cbn.
  rewrite Z.geb_leb.
  destruct (Z.leb_spec (p_off (iv_begin iv)) (p_off (iv_end iv))) as [Hle | Hgt];
    destruct (Z.leb_spec 0 (p_off (iv_end iv) - p_off (iv_begin iv)));
    try lia; cbn; [| reflexivity].
  destruct (Z.ltb_spec (p_off (iv_end iv) - p_off (iv_begin iv)) INT_MAX) as [Hlt | Hge];
    cbn; [| reflexivity].
  rewrite to_int_small; [reflexivity |]. unfold INT_MAX in Hlt. lia.
Qed.

Lemma interval_left_in_one_allocation_witness :
  interval_left (buffer_data demo_second) = Ok 16 /\
  const_interval_left (const_interval_of (buffer_data demo_second)) =
    interval_left (buffer_data demo_second).
Proof.
  apply (interval_left_in_one_allocation (buffer_data demo_second)).
  reflexivity.
Defined.

Lemma pointer_eqb_eq a b : pointer_eqb a b = true <-> a = b.
Proof.
  unfold pointer_eqb. destruct a as [ba oa], b as [bb ob]. cbn.
  rewrite andb_true_iff, !Z.eqb_eq.
  split; [intros [-> ->]; reflexivity | intros [= -> ->]; auto].
Qed.

(** X11. [const_interval::operator==] compares the two boundary pointers, so in
    a state that satisfies the invariant the views of two live buffers, the
    first of them not empty, are equal exactly when they are views of the
    same object. *)
Theorem const_interval_eq_same_object s i j bi bj :
  state_ok s -> objs s !! i = Some bi -> objs s !! j = Some bj ->
  buffer_empty bi = false ->
  const_interval_eq (buffer_data_const bi) (buffer_data_const bj) = true <-> i = j.
Proof.
  intros Hs Hi Hj Hne. split.
  - unfold const_interval_eq, buffer_data_const, const_interval_of. cbn.
    rewrite andb_true_iff, !pointer_eqb_eq. intros [Hbegin _].
    apply (ok_unique s Hs i j bi bj Hi Hj); [| exact Hbegin].
    destruct (ok_buffers s Hs i bi Hi) as (Hz & _).
    intros Hn. apply Hz in Hn. unfold buffer_empty in Hne.
    rewrite Hn in Hne. discriminate.
  - intros <-. assert (bi = bj) as <- by congruence.
    unfold const_interval_eq. rewrite andb_true_iff, !pointer_eqb_eq. auto.
Qed.

Lemma const_interval_eq_same_object_witness :
  const_interval_eq (buffer_data_const demo_first) (buffer_data_const demo_second)
    = true <-> 1%positive = 2%positive.
Proof.
  apply (const_interval_eq_same_object demo_state 1 2 demo_first demo_second).
  - apply demo_state_ok.
  - reflexivity.
  - reflexivity.
  - reflexivity.
Defined.

(** X12. The conversion to [array_view] passes [int(m_size)]: the length is
    [size()] for sizes up to [INT_MAX], where it agrees with [left()]
    whenever [left()] returns, and it is negative for a size from [2^31]
    up to [2^32 - 1]. *)
Theorem array_view_length (b : buffer) :
  0 <= buffer_size b ->
  av_data (buffer_array_view b) = buffer_ptr b /\
  (buffer_size b <= INT_MAX -> av_size (buffer_array_view b) = buffer_size b) /\
  (forall n, interval_left (buffer_data b) = Ok n ->
     av_size (buffer_array_view b) = n /\ n = buffer_size b) /\
  (INT_MAX < buffer_size b < 2 ^ 32 ->
     av_size (buffer_array_view b) = buffer_size b - 2 ^ 32 /\
     av_size (buffer_array_view b) < 0).
Proof.
  intros H0. unfold buffer_size, buffer_array_view, INT_MAX in *. cbn.
  split; [reflexivity |]. split; [| split].
  - intros Hle. apply to_int_small. lia.
  - intros n Hn. rewrite interval_left_of_buffer in Hn by exact H0.
    destruct (Z.ltb_spec (m_size b) INT_MAX) as [Hlt | Hge]; [| discriminate].
    injection Hn as <-. unfold INT_MAX in Hlt.
    split; [apply to_int_small; lia | reflexivity].
  - intros Hbig.
    assert (to_int (m_size b) = m_size b - 2 ^ 32) as ->; [| lia].
    unfold to_int.
    rewrite <- (Z.mod_unique (m_size b + 2 ^ 31) (2 ^ 32) 1 (m_size b - 2 ^ 31));
      lia.
Qed.

Lemma array_view_length_witness :
  av_data (buffer_array_view demo_first) = buffer_ptr demo_first /\
  (buffer_size demo_first <= INT_MAX ->
     av_size (buffer_array_view demo_first) = buffer_size demo_first) /\
  (forall n, interval_left (buffer_data demo_first) = Ok n ->
     av_size (buffer_array_view demo_first) = n /\ n = buffer_size demo_first) /\
  (INT_MAX < buffer_size demo_first < 2 ^ 32 ->
     av_size (buffer_array_view demo_first) = buffer_size demo_first - 2 ^ 32 /\
     av_size (buffer_array_view demo_first) < 0).
Proof.
  apply (array_view_length demo_first). vm_compute. congruence.
Defined.

(** ** Swap, destruction and moves *)

Lemma state_eq (s s' : state) :
  heap s = heap s' -> objs s = objs s' ->
  n_malloc s = n_malloc s' -> n_free s = n_free s' -> s = s'.
Proof. destruct s, s'; cbn. intros -> -> -> ->. reflexivity. Qed.

(** X13. [swap] exchanges the members of two live objects, so their sizes and
    data pointers change places; it touches no other object, makes no
    [malloc] and no [free], leaves the heap as it is and keeps the
    invariant. *)
Theorem swap_exchanges this b me other s :
  objs s !! this = Some me -> objs s !! b = Some other ->
  exists s',
    buffer_swap this b s = Ok s' /\
    objs s' !! this = Some other /\ objs s' !! b = Some me /\
    (forall k, k <> this -> k <> b -> objs s' !! k = objs s !! k) /\
    heap s' = heap s /\ n_malloc s' = n_malloc s /\ n_free s' = n_free s /\
    (state_ok s -> state_ok s').
Proof.
  intros Hme Hother.
  exists (set_obj b me (set_obj this other s)).
  split; [apply buffer_swap_eq; assumption |].
  rewrite !objs_set_obj. split; [| split; [| split]].
  - destruct (decide (b = this)) as [-> | Hne].
    + rewrite lookup_insert_eq. congruence.
    + rewrite lookup_insert_ne by exact Hne. apply lookup_insert_eq.
  - apply lookup_insert_eq.
  - intros k Hk1 Hk2. rewrite !lookup_insert_ne by congruence. reflexivity.
  - do 3 (split; [reflexivity |]). intros Hs. apply state_ok_swap; assumption.
Qed.

Lemma swap_exchanges_witness :
  exists s',
    buffer_swap 1 2 demo_state = Ok s' /\
    objs s' !! 1%positive = Some demo_second /\
    objs s' !! 2%positive = Some demo_first /\
    (forall k, k <> 1%positive -> k <> 2%positive ->
               objs s' !! k = objs demo_state !! k) /\
    heap s' = heap demo_state /\ n_malloc s' = n_malloc demo_state /\
    n_free s' = n_free demo_state /\
    (state_ok demo_state -> state_ok s').
Proof.
  apply (swap_exchanges 1 2 demo_first demo_second demo_state); reflexivity.
Defined.

(** X14. Swapping twice gives back the state, swapping an object with itself
    changes nothing, and [a.swap(b)] and [b.swap(a)] do the same. *)
Theorem swap_twice_is_identity this b s :
  is_Some (objs s !! this) -> is_Some (objs s !! b) ->
  (s1 ← buffer_swap this b s; buffer_swap this b s1) = Ok s /\
  buffer_swap this this s = Ok s /\
  buffer_swap b this s = buffer_swap this b s.
Proof.
  intros [me Hme] [other Hother].
  assert (forall x y bx by_, objs s !! x = Some bx -> objs s !! y = Some by_ ->
            set_obj y bx (set_obj x by_ s) = set_obj x by_ (set_obj y bx s))
    as Hcomm.
  { intros x y bx by_ Hx Hy. apply state_eq; try reflexivity.
    rewrite !objs_set_obj. destruct (decide (x = y)) as [-> | Hne].
    - assert (bx = by_) as -> by congruence. reflexivity.
    - apply insert_insert_ne. congruence. }
  split; [| split].
  - rewrite (buffer_swap_eq this b me other) by assumption. cbn.
    set (s1 := set_obj b me (set_obj this other s)).
    assert (objs s1 !! b = Some me) as Hb1 by apply lookup_insert_eq.
    assert (objs s1 !! this = Some other) as Ht1.
    { unfold s1. rewrite !objs_set_obj. destruct (decide (b = this)) as [-> | Hne].
      - rewrite lookup_insert_eq. congruence.
      - rewrite lookup_insert_ne by exact Hne. apply lookup_insert_eq. }
    rewrite (buffer_swap_eq this b other me s1) by assumption.
    f_equal. apply state_eq; try reflexivity.
    unfold s1. rewrite !objs_set_obj. apply map_eq. intros k.
    destruct (decide (k = b)) as [-> | Hkb].
    + rewrite lookup_insert_eq. congruence.
    + rewrite lookup_insert_ne by congruence.
      destruct (decide (k = this)) as [-> | Hkt].
      * rewrite lookup_insert_eq. congruence.
      * rewrite !lookup_insert_ne by congruence. reflexivity.
  - rewrite (buffer_swap_eq this this me me) by assumption.
    f_equal. apply state_eq; try reflexivity.
    rewrite !objs_set_obj, insert_insert_eq. apply insert_id. exact Hme.
  - rewrite (buffer_swap_eq this b me other), (buffer_swap_eq b this other me)
      by assumption.
    f_equal. apply Hcomm; assumption.
Qed.

Lemma swap_twice_is_identity_witness :
  (s1 ← buffer_swap 1 2 demo_state; buffer_swap 1 2 s1) = Ok demo_state /\
  buffer_swap 1 1 demo_state = Ok demo_state /\
  buffer_swap 2 1 demo_state = buffer_swap 1 2 demo_state.
Proof.
  apply (swap_twice_is_identity 1 2 demo_state).
  - exists demo_first. reflexivity.
  - exists demo_second. reflexivity.
Defined.

(** X15. The destructor of a live object returns and removes the object. For an
    empty buffer it releases nothing; otherwise it releases the buffer's
    own allocation and no other. The invariant holds afterwards. *)
Theorem dtor_releases_own_allocation this me s :
  state_ok s -> objs s !! this = Some me ->
  exists s',
    buffer_dtor this s = Ok s' /\
    objs s' = delete this (objs s) /\
    n_malloc s' = n_malloc s /\
    (buffer_empty me = true -> heap s' = heap s /\ n_free s' = n_free s) /\
    (buffer_empty me = false ->
       is_Some (heap s !! p_base (buffer_ptr me)) /\
       heap s' = delete (p_base (buffer_ptr me)) (heap s) /\
       n_free s' = S (n_free s)) /\
    state_ok s'.
Proof.
  intros Hs Hme. exists (del_obj this (freed (m_begin me) s)).
  split; [apply (buffer_dtor_eq this me); eauto using free_of_owner |].
  destruct (ok_buffers s Hs this me Hme) as (Hz & _ & Hlive).
  unfold buffer_empty, buffer_ptr.
  split; [cbn; rewrite objs_freed; reflexivity |].
  split; [unfold freed; destruct (is_null (m_begin me)); reflexivity |].
  split; [| split].
  - intros He. apply Z.eqb_eq, Hz in He. unfold freed.
    rewrite (proj2 (is_null_true_iff _) He). auto.
  - intros He. apply Z.eqb_neq in He.
    assert (m_begin me <> nullptr) as Hnn by (intros Hn; apply Hz in Hn; lia).
    destruct (Hlive Hnn) as (_ & blk & Hblk & _).
    unfold freed. rewrite (proj2 (is_null_false_iff _) Hnn). cbn. eauto.
  - apply state_ok_dtor; assumption.
Qed.

Lemma dtor_releases_own_allocation_witness :
  exists s',
    buffer_dtor 1 demo_state = Ok s' /\
    objs s' = delete 1%positive (objs demo_state) /\
    n_malloc s' = n_malloc demo_state /\
    (buffer_empty demo_first = true ->
       heap s' = heap demo_state /\ n_free s' = n_free demo_state) /\
    (buffer_empty demo_first = false ->
       is_Some (heap demo_state !! p_base (buffer_ptr demo_first)) /\
       heap s' = delete (p_base (buffer_ptr demo_first)) (heap demo_state) /\
       n_free s' = S (n_free demo_state)) /\
    state_ok s'.
Proof.
  apply (dtor_releases_own_allocation 1 demo_first demo_state).
  - apply demo_state_ok.
  - reflexivity.
Defined.

(** X16. Moving a buffer into a new object and then destroying the moved-from
    object releases nothing: the heap and both counters are as before, and
    the new object holds what the old one held. *)
Theorem move_then_destroy_source `{Platform} this b src s :
  objs s !! this = None -> objs s !! b = Some src ->
  exists s',
    run [MoveNew this b; Delete b] s = Ok s' /\
    objs s' !! this = Some src /\ objs s' !! b = None /\
    heap s' = heap s /\ n_malloc s' = n_malloc s /\ n_free s' = n_free s.
Proof.
  intros Hthis Hb. assert (this <> b) as Hne by congruence.
  cbn. rewrite (proj2 (fresh_obj_Ok this s) Hthis). cbn.
  rewrite (buffer_move_ctor_eq this b src) by assumption. cbn.
  set (s1 := set_obj b empty_buffer (set_obj this src s)).
  assert (objs s1 !! b = Some empty_buffer) as Hb1 by apply lookup_insert_eq.
  rewrite (buffer_dtor_eq b empty_buffer s1) by (auto using free_owned).
  cbn. eexists. split; [reflexivity |]. cbn.
  rewrite lookup_delete_ne, lookup_insert_ne, lookup_insert_eq by congruence.
  rewrite lookup_delete_eq. repeat split.
Qed.

Lemma move_then_destroy_source_witness :
  exists s',
    run (H := glibc64) [MoveNew 3 1; Delete 1] demo_state = Ok s' /\
    objs s' !! 3%positive = Some demo_first /\ objs s' !! 1%positive = None /\
    heap s' = heap demo_state /\ n_malloc s' = n_malloc demo_state /\
    n_free s' = n_free demo_state.
Proof.
  apply (move_then_destroy_source (H := glibc64) 3 1 demo_first demo_state);
    reflexivity.
Defined.

Lemma freed_keeps_other_block this b me src s :
  state_ok s -> objs s !! this = Some me -> objs s !! b = Some src ->
  this <> b ->
  heap (freed (m_begin me) s) !! p_base (m_begin src) =
    heap s !! p_base (m_begin src).
Proof.
  intros Hs Hme Hsrc Hne.
  unfold freed. destruct (is_null (m_begin me)) eqn:Hnull; [reflexivity |].
  cbn. apply is_null_false_iff in Hnull.
  destruct (decide (p_base (m_begin me) = p_base (m_begin src))) as [Heq | Hdiff];
    [| apply lookup_delete_ne; exact Hdiff].
  exfalso.
  destruct (ok_buffers s Hs this me Hme) as (_ & _ & Hlive).
  destruct (Hlive Hnull) as (Hoff & blk & Hblk & _).
  destruct (decide (m_begin src = nullptr)) as [Hsn | Hsn].
  - rewrite Hsn in Heq. cbn in Heq. rewrite Heq in Hblk.
    destruct (ok_owned s Hs 0 blk Hblk) as [H0 _]. congruence.
  - destruct (ok_buffers s Hs b src Hsrc) as (_ & _ & Hslive).
    destruct (Hslive Hsn) as (Hsoff & _).
    apply Hne. apply (ok_unique s Hs this b me src Hme Hsrc Hnull).
    destruct (m_begin me), (m_begin src); cbn in *; congruence.
Qed.

(** X17. Move assignment hands over the bytes with the allocation: every read
    of the destination afterwards gives what the same read of the source
    gave before, although the destination's old allocation was released
    in between. *)
Theorem move_assign_keeps_bytes this b me src s :
  state_ok s -> objs s !! this = Some me -> objs s !! b = Some src ->
  this <> b ->
  exists s',
    buffer_move_assign this b s = Ok s' /\
    objs s' !! this = Some src /\
    forall i, buffer_index src i s' = buffer_index src i s.
Proof.
  intros Hs Hme Hsrc Hne.
  eexists. split;
    [apply (buffer_move_assign_eq this b me src); eauto using free_of_owner |].
  rewrite !objs_set_obj.
  split; [rewrite lookup_insert_ne by congruence; apply lookup_insert_eq |].
  intros i. apply buffer_index_same_block. cbn.
  apply (freed_keeps_other_block this b); assumption.
Qed.

Lemma move_assign_keeps_bytes_witness :
  exists s',
    buffer_move_assign 1 2 demo_state = Ok s' /\
    objs s' !! 1%positive = Some demo_second /\
    forall i, buffer_index demo_second i s' = buffer_index demo_second i demo_state.
Proof.
  apply (move_assign_keeps_bytes 1 2 demo_first demo_second demo_state).
  - apply demo_state_ok.
  - reflexivity.
  - reflexivity.
  - discriminate.
Defined.

(** ** Construction among other objects *)

(** What a returning construction changes: the object it creates, the
    allocation it was given, and the count of [malloc] calls. *)
Lemma ctor_init_frame `{Platform} this size initialize r s s' :
  buffer_ctor_init this size initialize r s = Ok s' ->
  (forall k, k <> this -> objs s' !! k = objs s !! k) /\
  (forall q, (forall p u, r = malloc_returns p u -> q <> p) ->
             heap s' !! q = heap s !! q) /\
  n_free s' = n_free s /\
  n_malloc s' = (if size =? 0 then n_malloc s else S (n_malloc s)).
Proof.
  intros Hrun. unfold buffer_ctor_init in Hrun.
  destruct (buffer_ctor_cases this size r s)
    as [Hc | [[-> Hc] | [(_ & _ & _ & Hc) | (Hne & Hlt & p & u & Hp & -> & Hc)]]];
    rewrite Hc in Hrun; cbn in Hrun; try discriminate.
  - destruct (Z.leb_spec (Z.of_nat (length initialize)) 0) as [Hle | _];
      [| discriminate].
    cbn in Hrun.
    destruct (Z.gtb_spec (Z.of_nat (length initialize)) 0) as [Hpos | _]; [lia |].
    injection Hrun as <-. cbn. repeat split.
    intros k Hk. apply lookup_insert_ne. congruence.
  - destruct no_exceptions; discriminate.
  - assert ((size =? 0) = false) as -> by (apply Z.eqb_neq, Hne).
    destruct (torrent_assert _); try discriminate. cbn in Hrun.
    assert (forall s2,
              heap s2 = heap (constructed this size p u s) \/
              (exists blk, heap s2 = <[p := blk]> (heap (constructed this size p u s))) ->
              objs s2 = objs (constructed this size p u s) ->
              n_malloc s2 = S (n_malloc s) -> n_free s2 = n_free s ->
              (forall k, k <> this -> objs s2 !! k = objs s !! k) /\
              (forall q, (forall p0 u0, malloc_returns p u = malloc_returns p0 u0 -> q <> p0) ->
                         heap s2 !! q = heap s !! q) /\
              n_free s2 = n_free s /\ n_malloc s2 = S (n_malloc s)) as Hshape.
    { intros s2 Hheap Hobjs Hm Hf. split; [| split; [| auto]].
      - intros k Hk. rewrite Hobjs. cbn. apply lookup_insert_ne. congruence.
      - intros q Hq. specialize (Hq p u eq_refl).
        destruct Hheap as [-> | [blk ->]]; cbn;
          rewrite ?lookup_insert_ne by congruence; reflexivity. }
    destruct (_ >? 0).
    + unfold get_obj in Hrun. rewrite objs_constructed in Hrun. cbn in Hrun.
      unfold memcpy in Hrun. cbn in Hrun. rewrite lookup_insert_eq in Hrun.
      cbn in Hrun. destruct (_ && _); [| discriminate].
      injection Hrun as <-. apply Hshape; cbn; eauto.
    + injection Hrun as <-. apply Hshape; cbn; eauto.
Qed.

(** X18. A returning construction leaves every other live object alone: its
    members are the same and every read of it gives the same result. *)
Theorem construction_leaves_others `{Platform}
    this size initialize r s s' other b :
  state_ok s -> malloc_consistent (heap s) (round_up8 size) r ->
  objs s !! other = Some b -> other <> this ->
  buffer_ctor_init this size initialize r s = Ok s' ->
  objs s' !! other = Some b /\
  forall i, buffer_index b i s' = buffer_index b i s.
Proof.
  intros Hs Hr Hb Hne Hrun.
  destruct (ctor_init_frame _ _ _ _ _ _ Hrun) as (Hobjs & Hheap & _).
  split; [rewrite Hobjs by exact Hne; exact Hb |].
  intros i. apply buffer_index_same_block. apply Hheap.
  intros p u -> Heq. destruct Hr as (Hp & Hfresh & _).
  destruct (decide (m_begin b = nullptr)) as [Hn | Hn].
  - rewrite Hn in Heq. cbn in Heq. lia.
  - destruct (ok_buffers s Hs other b Hb) as (_ & _ & Hlive).
    destruct (Hlive Hn) as (_ & blk & Hblk & _). congruence.
Qed.

Lemma construction_leaves_others_witness :
  objs (state_after (H := glibc64)
          [NewInit 3 8 [x07; x07]%byte (malloc_returns 12288 16)] demo_state)
    !! 2%positive = Some demo_second /\
  forall i,
    buffer_index demo_second i
      (state_after (H := glibc64)
         [NewInit 3 8 [x07; x07]%byte (malloc_returns 12288 16)] demo_state) =
    buffer_index demo_second i demo_state.
Proof.
  apply (construction_leaves_others (H := glibc64) 3 8 [x07; x07]%byte
           (malloc_returns 12288 16) demo_state _ 2 demo_second).
  - apply demo_state_ok.
  - vm_compute. repeat split; congruence.
  - reflexivity.
  - discriminate.
  - reflexivity.
Defined.

(** ** No undefined behaviour *)

(** X19. In a state that satisfies the invariant, a step that refers to objects
    as a program can and is answered by a conforming allocator is never
    undefined: no pointer is released twice, nothing is released that was
    not allocated, and [memcpy] stays inside the new allocation. Moves,
    swap and destruction always return; a construction returns, fails an
    assertion or reports that memory ran out. *)
Theorem step_never_undefined `{Platform} o s :
  state_ok s -> op_env_ok o s -> op_refs_ok o s ->
  exec_op o s <> Undefined /\
  match o with
  | New _ _ _ | NewInit _ _ _ _ =>
      (exists s', exec_op o s = Ok s') \/ exec_op o s = Assert_failed \/
      exec_op o s = out_of_memory
  | _ => exists s', exec_op o s = Ok s'
  end.
Proof.
  intros Hs Henv Hrefs.
  assert (forall x : result state,
            ((exists a, x = Ok a) \/ x = Assert_failed \/ x = out_of_memory) ->
            x <> Undefined) as Hctor.
  { intros x [[a ->] | [-> | ->]]; try discriminate.
    unfold out_of_memory. destruct no_exceptions; discriminate. }
  destruct o as [this size r | this size ini r | this b | this b | this b | this];
    cbn in Henv, Hrefs |- *.
  - rewrite (proj2 (fresh_obj_Ok this s) Hrefs). cbn.
    assert ((exists s', buffer_ctor this size r s = Ok s') \/
            buffer_ctor this size r s = Assert_failed \/
            buffer_ctor this size r s = out_of_memory) as Hcases.
    { destruct (buffer_ctor_cases this size r s)
        as [Hc | [[_ Hc] | [(_ & _ & _ & Hc) | (_ & _ & p & u & _ & _ & Hc)]]];
        rewrite Hc; eauto. }
    split; [apply Hctor |]; exact Hcases.
  - rewrite (proj2 (fresh_obj_Ok this s) Hrefs). cbn.
    destruct Henv as [[Hsize0 _] Hr].
    assert ((exists s', buffer_ctor_init this size ini r s = Ok s') \/
            buffer_ctor_init this size ini r s = Assert_failed \/
            buffer_ctor_init this size ini r s = out_of_memory) as Hcases.
    { destruct (Z_lt_le_dec size (Z.of_nat (length ini))) as [Hlong | Hfits].
      - destruct (Z_lt_le_dec size INT32_MAX) as [Hlt | Hge].
        + unfold buffer_ctor_init.
          destruct (buffer_ctor_cases this size r s)
            as [Hc | [[-> Hc] | [(_ & _ & _ & Hc) | (_ & _ & p & u & _ & _ & Hc)]]];
            rewrite Hc; cbn; auto.
          * destruct (Z.leb_spec (Z.of_nat (length ini)) 0); [lia | auto].
          * right. right. unfold out_of_memory.
            destruct no_exceptions; reflexivity.
          * destruct (Z.leb_spec (Z.of_nat (length ini)) size); [lia | auto].
        + right. left. unfold buffer_ctor_init.
          rewrite buffer_ctor_oversized by exact Hge. reflexivity.
      - destruct (Z_lt_le_dec size INT32_MAX) as [Hlt | Hge].
        + destruct r as [| p u].
          * destruct (Z.eq_dec size 0) as [-> | Hne].
            -- assert (ini = []) as ->
                 by (destruct ini; [reflexivity | cbn in Hfits; lia]).
               left. rewrite ctor_init_zero. eauto.
            -- right. right. unfold buffer_ctor_init.
               rewrite buffer_ctor_malloc_fails by lia.
               unfold out_of_memory. destruct no_exceptions; reflexivity.
          * left. destruct (Z.eq_dec size 0) as [-> | Hne].
            -- assert (ini = []) as ->
                 by (destruct ini; [reflexivity | cbn in Hfits; lia]).
               rewrite ctor_init_zero. eauto.
            -- destruct (ctor_init_granted this size ini p u s
                           ltac:(lia) Hfits Hlt Hr) as (s' & Hrun & _).
               eauto.
        + right. left. unfold buffer_ctor_init.
          rewrite buffer_ctor_oversized by exact Hge. reflexivity. }
    split; [apply Hctor |]; exact Hcases.
  - destruct Hrefs as [Hthis [src Hsrc]].
    rewrite (proj2 (fresh_obj_Ok this s) Hthis). cbn.
    rewrite (buffer_move_ctor_eq this b src) by congruence.
    split; [discriminate | eauto].
  - destruct Hrefs as [[me Hme] [src Hsrc]].
    destruct (decide (this = b)) as [<- | Hne].
    + rewrite buffer_move_assign_self by eauto. split; [discriminate | eauto].
    + rewrite (buffer_move_assign_eq this b me src)
        by eauto using free_of_owner.
      split; [discriminate | eauto].
  - destruct Hrefs as [[me Hme] [other Hother]].
    rewrite (buffer_swap_eq this b me other) by assumption.
    split; [discriminate | eauto].
  - destruct Hrefs as [me Hme].
    rewrite (buffer_dtor_eq this me) by eauto using free_of_owner.
    split; [discriminate | eauto].
Qed.

Lemma step_never_undefined_witness :
  exec_op (H := glibc64) (MoveAssign 2 1) demo_state <> Undefined /\
  exists s', exec_op (H := glibc64) (MoveAssign 2 1) demo_state = Ok s'.
Proof.
  apply (step_never_undefined (H := glibc64) (MoveAssign 2 1) demo_state).
  - apply demo_state_ok.
  - exact I.
  - split; [exists demo_second | exists demo_first]; reflexivity.
Defined.

(** Outside the invariant the same calls are undefined: destroying one of
    two objects that point to the same allocation and then the other
    releases it twice. *)
Example double_free_is_undefined :
  let shared := {| m_begin := {| p_base := 4096; p_off := 0 |}; m_size := 8 |} in
  let s := {| heap := {[ 4096 := {| blk_usable := 8; blk_bytes := ∅ |} ]};
              objs := {[ 1%positive := shared; 2%positive := shared ]};
              n_malloc := 1; n_free := 0 |} in
  run (H := glibc64) [Delete 1; Delete 2] s = Undefined.
Proof. reflexivity. Qed.

(** ** Growing a buffer *)

(** X20. The documented way to grow: a new buffer is built from [bytes] (the
    contents to keep), move-assigned over the old object, and the
    temporary is destroyed. The three steps return; the old object then
    has a size of at least [round_up8(size)] and reads [bytes] at its
    start; the temporary is gone; one [malloc] was made, and the old
    allocation, if there was one, was released and nothing else; the
    invariant holds. *)
Theorem grow_replaces_allocation `{Platform} old tmp d size bytes p u s :
  state_ok s -> objs s !! old = Some d -> objs s !! tmp = None ->
  0 < size < INT32_MAX -> Z.of_nat (length bytes) <= size ->
  malloc_consistent (heap s) (round_up8 size) (malloc_returns p u) ->
  exists s' b,
    run (grow old tmp size bytes (malloc_returns p u)) s = Ok s' /\
    objs s' !! old = Some b /\ objs s' !! tmp = None /\
    round_up8 size <= buffer_size b /\
    (forall i c, bytes !! i = Some c ->
       buffer_index b (Z.of_nat i) s' = Ok (Some c)) /\
    n_malloc s' = S (n_malloc s) /\
    n_free s' = (if buffer_empty d then n_free s else S (n_free s)) /\
    (buffer_empty d = false -> heap s' !! p_base (buffer_ptr d) = None) /\
    state_ok s'.
Proof.
  intros Hs Hold Htmp Hsize Hlen Hr.
  assert (old <> tmp) as Hne by congruence.
  destruct (ctor_init_granted tmp size bytes p u s ltac:(lia) Hlen ltac:(lia) Hr)
    as (s1 & Hrun1 & b & Hb & Hsz & _ & Hread & _).
  destruct (ctor_init_frame _ _ _ _ _ _ Hrun1) as (Hobjs1 & Hheap1 & Hfree1 & Hmalloc1).
  assert (state_ok s1) as Hs1
    by (eapply buffer_ctor_init_keeps_ok; eauto; lia).
  assert (objs s1 !! old = Some d) as Hold1
    by (rewrite Hobjs1 by exact Hne; exact Hold).
  set (s2 := set_obj tmp empty_buffer (set_obj old b (freed (m_begin d) s1))).
  assert (state_ok s2) as Hs2 by (apply state_ok_move_assign; auto).
  assert (objs s2 !! tmp = Some empty_buffer) as Htmp2 by apply lookup_insert_eq.
  exists (del_obj tmp s2), b.
  split.
  { unfold grow. cbn. rewrite (proj2 (fresh_obj_Ok tmp s) Htmp). cbn.
    rewrite Hrun1. cbn.
    rewrite (buffer_move_assign_eq old tmp d b) by eauto using free_of_owner.
    cbn. fold s2.
    rewrite (buffer_dtor_eq tmp empty_buffer s2) by (auto using free_owned).
    reflexivity. }
  assert (heap (del_obj tmp s2) = heap (freed (m_begin d) s1)) as Hheap2
    by reflexivity.
  split.
  { cbn. rewrite lookup_delete_ne, lookup_insert_ne by congruence.
    apply lookup_insert_eq. }
  split; [cbn; apply lookup_delete_eq |].
  split; [exact Hsz |].
  split.
  { intros i c Hi.
    rewrite <- (Hread i c Hi). apply buffer_index_same_block.
    rewrite Hheap2. apply (freed_keeps_other_block old tmp); assumption. }
  assert ((size =? 0) = false) as Hnz by (apply Z.eqb_neq; lia).
  rewrite Hnz in Hmalloc1.
  destruct (ok_buffers s Hs old d Hold) as (Hz & _ & Hlive).
  unfold buffer_empty, buffer_ptr.
  destruct (Z.eqb_spec (m_size d) 0) as [Hempty | Hfull].
  - apply Hz in Hempty.
    assert (freed (m_begin d) s1 = s1) as Hfr
      by (unfold freed; rewrite (proj2 (is_null_true_iff _) Hempty); reflexivity).
    split; [cbn; rewrite Hfr; exact Hmalloc1 |].
    split; [cbn; rewrite Hfr; exact Hfree1 |].
    split; [discriminate |].
    apply (state_ok_forget tmp s2 Hs2 Htmp2).
  - assert (m_begin d <> nullptr) as Hnn by (intros Hn; apply Hz in Hn; lia).
    assert (is_null (m_begin d) = false) as Hnull
      by (apply is_null_false_iff, Hnn).
    split; [cbn; unfold freed; rewrite Hnull; cbn; exact Hmalloc1 |].
    split; [cbn; unfold freed; rewrite Hnull; cbn; rewrite Hfree1; reflexivity |].
    split.
    + intros _. rewrite Hheap2. unfold freed. rewrite Hnull. cbn.
      apply lookup_delete_eq.
    + apply (state_ok_forget tmp s2 Hs2 Htmp2).
Qed.

Lemma grow_replaces_allocation_witness :
  exists s' b,
    run (H := glibc64)
        (grow 2 3 100 [x01; x02; x03]%byte (malloc_returns 12288 104))
        demo_state = Ok s' /\
    objs s' !! 2%positive = Some b /\ objs s' !! 3%positive = None /\
    round_up8 (H := glibc64) 100 <= buffer_size b /\
    (forall i c, [x01; x02; x03]%byte !! i = Some c ->
       buffer_index b (Z.of_nat i) s' = Ok (Some c)) /\
    n_malloc s' = S (n_malloc demo_state) /\
    n_free s' = (if buffer_empty demo_second then n_free demo_state
                 else S (n_free demo_state)) /\
    (buffer_empty demo_second = false ->
       heap s' !! p_base (buffer_ptr demo_second) = None) /\
    state_ok s'.
Proof.
  apply (grow_replaces_allocation (H := glibc64) 2 3 demo_second 100
           [x01; x02; x03]%byte 12288 104 demo_state).
  - apply demo_state_ok.
  - reflexivity.
  - reflexivity.
  - unfold INT32_MAX. lia.
  - vm_compute. congruence.
  - vm_compute. repeat split; congruence.
Defined.

(** ** Bounds, writes and the lifetime of views *)

(** X8. An index at or past [size()] fails the assertion of [operator[]]. On
    the views returned by [data()], an [int] index fails the assertion
    when it is [size()] or lies between [size()] and the end of the
    buffer's allocation. *)
Theorem index_past_end_asserts s this b i :
  state_ok s -> objs s !! this = Some b -> buffer_size b <= i ->
  buffer_index b i s = Assert_failed /\
  (i <= INT_MAX ->
   i = buffer_size b \/
   (exists blk, heap s !! p_base (buffer_ptr b) = Some blk /\ i <= blk_usable blk) ->
   interval_index (buffer_data b) i s = Assert_failed /\
   const_interval_index (buffer_data_const b) i s = Assert_failed).
Proof.
  intros Hs Hb Hi. unfold buffer_size, buffer_ptr in *.
  split.
  { unfold buffer_index, buffer_size.
    destruct (Z.ltb_spec i (m_size b)); [lia | reflexivity]. }
  intros Hint Hnear.
  assert (interval_index (buffer_data b) i s = Assert_failed) as Hiv.
  { destruct (ok_buffers s Hs this b Hb) as (Hz & Hpos & Hlive).
    destruct (decide (m_begin b = nullptr)) as [Hn | Hn].
    - pose proof (no_block_at_null s Hs) as Hnone.
      assert (i = 0) as ->.
      { destruct Hnear as [-> | (blk & Hblk & _)]; [apply Hz, Hn |].
        rewrite Hn in Hblk. cbn in Hblk. congruence. }
      rewrite (interval_index_of_empty b 0 s Hn)
        by (try apply Hz; auto; unfold INT_MAX; lia).
      reflexivity.
    - destruct (Hlive Hn) as (Hoff & blk & Hblk & Hle).
      assert (i <= blk_usable blk) as Hfit.
      { destruct Hnear as [-> | (blk' & Hblk' & Hle')]; [exact Hle |].
        congruence. }
      rewrite (interval_index_in_block b (p_base (m_begin b)) blk);
        [| destruct (m_begin b); cbn in *; congruence | exact Hblk | lia
         | unfold INT_MAX in *; lia].
      destruct (Z.ltb_spec i 0); [lia |].
      destruct (Z.ltb_spec (blk_usable blk) i); [lia |].
      rewrite andb_false_r. cbn.
      destruct (Z.ltb_spec i (m_size b)); [lia | reflexivity]. }
  split; [exact Hiv |].
  unfold buffer_data_const. rewrite const_interval_index_of. exact Hiv.
Qed.

Lemma index_past_end_asserts_witness :
  buffer_index demo_second 16 demo_state = Assert_failed /\
  (16 <= INT_MAX ->
   16 = buffer_size demo_second \/
   (exists blk, heap demo_state !! p_base (buffer_ptr demo_second) = Some blk /\
                16 <= blk_usable blk) ->
   interval_index (buffer_data demo_second) 16 demo_state = Assert_failed /\
   const_interval_index (buffer_data_const demo_second) 16 demo_state =
     Assert_failed).
Proof.
  apply (index_past_end_asserts demo_state 2 demo_second 16).
  - apply demo_state_ok.
  - reflexivity.
  - vm_compute. congruence.
Defined.

(** X21. Writing a byte through [operator[]] at an index below [size()]
    returns; the same index then reads that byte, every other index of the
    buffer and every index of every other live buffer reads as before, no
    object changes and the invariant holds. *)
Theorem write_then_read this b i c s :
  state_ok s -> objs s !! this = Some b -> 0 <= i < buffer_size b ->
  exists s',
    buffer_assign_at b i c s = Ok s' /\
    buffer_index b i s' = Ok (Some c) /\
    (forall j, j <> i -> buffer_index b j s' = buffer_index b j s) /\
    (forall other b', objs s !! other = Some b' -> other <> this ->
       forall j, buffer_index b' j s' = buffer_index b' j s) /\
    objs s' = objs s /\ state_ok s'.
Proof.
  intros Hs Hb Hi.
  destruct (owned_block s this b Hs Hb ltac:(lia))
    as (p & blk & Hp & Hp0 & Hblk & Hle).
  unfold buffer_size in Hi.
  set (blk' := {| blk_usable := blk_usable blk;
                  blk_bytes := <[i := c]> (blk_bytes blk) |}).
  exists {| heap := <[p := blk']> (heap s); objs := objs s;
            n_malloc := n_malloc s; n_free := n_free s |}.
  split.
  { unfold buffer_assign_at, buffer_size, store.
    destruct (Z.ltb_spec i (m_size b)); [| lia]. cbn.
    rewrite Hp. cbn. rewrite Hblk, !Z.add_0_l.
    destruct (Z.leb_spec 0 i); [| lia].
    destruct (Z.ltb_spec i (blk_usable blk)); [| lia]. reflexivity. }
  split.
  { erewrite buffer_index_in_range;
      [| exact Hp | cbn; apply lookup_insert_eq | cbn; lia
       | unfold buffer_size; lia ].
    cbn. rewrite lookup_insert_eq. reflexivity. }
  split.
  { intros j Hj. unfold buffer_index, load, ptr_add. rewrite Hp. cbn.
    rewrite lookup_insert_eq, Hblk. cbn. rewrite !Z.add_0_l.
    rewrite lookup_insert_ne by congruence. reflexivity. }
  split.
  { intros other b' Hb' Hne j. apply buffer_index_same_block. cbn.
    apply lookup_insert_ne. intros Heq.
    destruct (decide (m_begin b' = nullptr)) as [Hn | Hn].
    - rewrite Hn in Heq. cbn in Heq. congruence.
    - destruct (ok_buffers s Hs other b' Hb') as (_ & _ & Hlive).
      destruct (Hlive Hn) as (Hoff & _).
      apply Hne. apply (ok_unique s Hs other this b' b Hb' Hb Hn).
      rewrite Hp. destruct (m_begin b'); cbn in *; congruence. }
  split; [reflexivity |].
  apply (state_ok_written p blk _ s Hs Hblk).
Qed.

Lemma write_then_read_witness :
  exists s',
    buffer_assign_at demo_first 5 x2a%byte demo_state = Ok s' /\
    buffer_index demo_first 5 s' = Ok (Some x2a%byte) /\
    (forall j, j <> 5 -> buffer_index demo_first j s' = buffer_index demo_first j demo_state) /\
    (forall other b', objs demo_state !! other = Some b' -> other <> 1%positive ->
       forall j, buffer_index b' j s' = buffer_index b' j demo_state) /\
    objs s' = objs demo_state /\ state_ok s'.
Proof.
  apply (write_then_read 1 demo_first 5 x2a%byte demo_state).
  - apply demo_state_ok.
  - reflexivity.
  - vm_compute. split; congruence.
Defined.

(** X22. A view taken from a buffer stays good when the buffer is moved into a
    new object: it is the view [data()] gives on the new owner, and it reads
    the same bytes as before the move. *)
Theorem view_survives_move this b src i s :
  objs s !! this = None -> objs s !! b = Some src ->
  exists s' dst,
    buffer_move_ctor this b s = Ok s' /\
    objs s' !! this = Some dst /\
    buffer_data dst = buffer_data src /\
    interval_index (buffer_data src) i s' = interval_index (buffer_data src) i s.
Proof.
  intros Hthis Hb. assert (this <> b) as Hne by congruence.
  exists (set_obj b empty_buffer (set_obj this src s)), src.
  split; [apply buffer_move_ctor_eq; assumption |].
  split; [rewrite !objs_set_obj, lookup_insert_ne by congruence;
          apply lookup_insert_eq |].
  split; reflexivity.
Qed.

Lemma view_survives_move_witness :
  exists s' dst,
    buffer_move_ctor 3 2 demo_state = Ok s' /\
    objs s' !! 3%positive = Some dst /\
    buffer_data dst = buffer_data demo_second /\
    interval_index (buffer_data demo_second) 1 s' =
      interval_index (buffer_data demo_second) 1 demo_state.
Proof.
  apply (view_survives_move 3 2 demo_second 1 demo_state); reflexivity.
Defined.

(** X23. A view does not keep the allocation alive: once the buffer it was
    taken from is destroyed, an [int] index that was in range and read a
    byte before is undefined on the view. *)
Theorem view_dangles_after_destroy this b i s :
  state_ok s -> objs s !! this = Some b ->
  0 <= i < buffer_size b -> i <= INT_MAX ->
  exists s',
    buffer_dtor this s = Ok s' /\
    (exists c, interval_index (buffer_data b) i s = Ok c) /\
    interval_index (buffer_data b) i s' = Undefined.
Proof.
  intros Hs Hb Hi Hint.
  destruct (owned_block s this b Hs Hb ltac:(lia))
    as (p & blk & Hp & Hp0 & Hblk & Hle).
  unfold buffer_size in Hi.
  exists (del_obj this (freed (m_begin b) s)).
  split; [apply (buffer_dtor_eq this b); eauto using free_of_owner |].
  split.
  - exists (blk_bytes blk !! i).
    rewrite (interval_index_in_block b p blk) by (auto; unfold INT_MAX in *; lia).
    destruct (Z.ltb_spec i 0); [lia |].
    destruct (Z.ltb_spec (blk_usable blk) i); [lia |].
    rewrite andb_false_r. cbn.
    destruct (Z.ltb_spec i (m_size b)); [reflexivity | lia].
  - assert (heap (del_obj this (freed (m_begin b) s)) !! p = None) as Hgone.
    { unfold freed. rewrite Hp, is_null_base by exact Hp0. cbn.
      apply lookup_delete_eq. }
    remember (del_obj this (freed (m_begin b) s)) as s' eqn:Hs'.
    unfold interval_index, buffer_data. cbn [iv_begin iv_end].
    rewrite to_int_in_range by (unfold INT_MAX in *; lia). rewrite Hp.
    destruct (Z.eq_dec i 0) as [-> | Hne].
    + unfold ptr_offset, ptr_lt, ptr_add, load. cbn.
      rewrite Z.eqb_refl, Z.add_0_l, Hgone. cbn.
      destruct (Z.ltb_spec 0 (m_size b)); [reflexivity | lia].
    + rewrite ptr_offset_no_block by (cbn; auto). reflexivity.
Qed.

Lemma view_dangles_after_destroy_witness :
  exists s',
    buffer_dtor 2 demo_state = Ok s' /\
    (exists c, interval_index (buffer_data demo_second) 1 demo_state = Ok c) /\
    interval_index (buffer_data demo_second) 1 s' = Undefined.
Proof.
  apply (view_dangles_after_destroy 2 demo_second 1 demo_state).
  - apply demo_state_ok.
  - reflexivity.
  - vm_compute. split; congruence.
  - vm_compute. congruence.
Defined.

(** ** No leak *)

(** X24. In every state a program reaches, each live allocation is the
    [m_begin] of exactly one live object, and there are as many live
    allocations as [malloc] calls not yet matched by a release. *)
Theorem every_allocation_has_one_owner `{Platform} s p blk :
  reachable s -> heap s !! p = Some blk ->
  (exists this b,
     objs s !! this = Some b /\ buffer_ptr b = {| p_base := p; p_off := 0 |} /\
     buffer_size b <= blk_usable blk /\
     forall other b', objs s !! other = Some b' ->
                      p_base (buffer_ptr b') = p -> other = this) /\
  (n_free s + size (heap s) = n_malloc s)%nat.
Proof.
  intros Hreach Hblk. pose proof (reachable_ok s Hreach) as Hs.
  split; [| symmetry; apply (ok_count s Hs)].
  destruct (ok_owned s Hs p blk Hblk) as (Hp0 & this & b & Hb & Hptr).
  exists this, b. split; [exact Hb |]. split; [exact Hptr |].
  assert (m_begin b <> nullptr) as Hnn
    by (rewrite Hptr; intros [= ?]; congruence).
  destruct (ok_buffers s Hs this b Hb) as (_ & _ & Hlive).
  destruct (Hlive Hnn) as (_ & blk0 & Hblk0 & Hle).
  rewrite Hptr in Hblk0. cbn in Hblk0.
  assert (blk0 = blk) as -> by congruence.
  split; [exact Hle |].
  intros other b' Hb' Hbase. unfold buffer_ptr in Hbase.
  assert (m_begin b' <> nullptr) as Hnn'
    by (intros Hn; rewrite Hn in Hbase; cbn in Hbase; congruence).
  destruct (ok_buffers s Hs other b' Hb') as (_ & _ & Hlive').
  destruct (Hlive' Hnn') as (Hoff' & _).
  apply (ok_unique s Hs other this b' b Hb' Hb Hnn').
  rewrite Hptr. destruct (m_begin b'); cbn in *; congruence.
Qed.

Lemma every_allocation_has_one_owner_witness :
  (exists this b,
     objs demo_state !! this = Some b /\
     buffer_ptr b = {| p_base := 8192; p_off := 0 |} /\
     buffer_size b <= 16 /\
     forall other b', objs demo_state !! other = Some b' ->
                      p_base (buffer_ptr b') = 8192 -> other = this) /\
  (n_free demo_state + size (heap demo_state) = n_malloc demo_state)%nat.
Proof.
  apply (every_allocation_has_one_owner (H := glibc64) demo_state 8192
           {| blk_usable := 16;
              blk_bytes := store_bytes 0 [x01; x02; x03]%byte 3 ∅ |}).
  - apply demo_state_reachable.
  - reflexivity.
Defined.
